(** * cfg: configuration loading with environment-variable override

    A shallow embedding of [cfg.go] (package [cfg]) and of the parts of the
    Go standard library it calls ([strings], [strconv], [os.LookupEnv],
    [reflect] kinds and setters), followed by the properties of the
    environment-override pass. *)

From Stdlib Require Import ZArith List String Ascii Bool Lia.
Import ListNotations.
Open Scope string_scope.
Open Scope Z_scope.

(** ** Externals that are left abstract

    [float64] with [strconv.ParseFloat(s, 64)] and the [float32(x)]
    conversion done by [reflect.Value.SetFloat], and the non-ASCII path of
    [strings.ToUpper] ([strings.Map(unicode.ToUpper, s)]). *)

Inductive numErr : Type := ErrSyntax | ErrRange.

Class Externals : Type := {
  float64 : Type;
  ParseFloat64 : string -> float64 + numErr;
  toFloat32 : float64 -> float64;
  mapUnicodeToUpper : string -> string
}.

(** ** package strings *)

Module strings.

Definition byteOf (c : ascii) : Z := Z.of_nat (nat_of_ascii c).

Definition ofByte (z : Z) : ascii := ascii_of_nat (Z.to_nat z).

Definition isLowerByte (c : ascii) : bool :=
  (97 <=? byteOf c) && (byteOf c <=? 122).

Definition isUpperByte (c : ascii) : bool :=
  (65 <=? byteOf c) && (byteOf c <=? 90).

(** [c -= 'a' - 'A'] for a lower-case byte. *)
Definition upperByte (c : ascii) : ascii :=
  if isLowerByte c then ofByte (byteOf c - 32) else c.

Definition lowerByte (c : ascii) : ascii :=
  if isUpperByte c then ofByte (byteOf c + 32) else c.

Fixpoint mapBytes (f : ascii -> ascii) (s : string) : string :=
  match s with
  | EmptyString => EmptyString
  | String c r => String (f c) (mapBytes f r)
  end.

(** [c >= utf8.RuneSelf] for no byte of [s]. *)
Fixpoint isASCII (s : string) : bool :=
  match s with
  | EmptyString => true
  | String c r => (byteOf c <? 128) && isASCII r
  end.

Fixpoint hasLower (s : string) : bool :=
  match s with
  | EmptyString => false
  | String c r => isLowerByte c || hasLower r
  end.

(** [strings.ToUpper]: the ASCII fast path is written out, the other path
    is the external [strings.Map(unicode.ToUpper, s)]. *)
Definition ToUpper `{Externals} (s : string) : string :=
  if isASCII s then
    if hasLower s then mapBytes upperByte s else s
  else mapUnicodeToUpper s.

(** [s[n:]] *)
Fixpoint sliceFrom (n : nat) (s : string) : string :=
  match n, s with
  | O, _ => s
  | S n', String _ r => sliceFrom n' r
  | S _, EmptyString => EmptyString
  end.

(** [s[:n]] *)
Fixpoint sliceTo (n : nat) (s : string) : string :=
  match n, s with
  | O, _ => EmptyString
  | S n', String c r => String c (sliceTo n' r)
  | S _, EmptyString => EmptyString
  end.

Definition HasSuffix (s suffix : string) : bool :=
  (String.length suffix <=? String.length s)%nat
  && String.eqb (sliceFrom (String.length s - String.length suffix) s) suffix.

Definition TrimSuffix (s suffix : string) : string :=
  if HasSuffix s suffix
  then sliceTo (String.length s - String.length suffix) s
  else s.

End strings.

(** ** package strconv *)

Module strconv.

Import strings.

Definition maxUint64 : Z := 2 ^ 64 - 1.

(** [lower(c) = c | ('x' - 'X')] *)
Definition lower (c : ascii) : Z := Z.lor (byteOf c) 32.

(** The digit switch of [ParseUint]'s loop, for a base that is not 0:
    [None] is the [default] branch (a syntax error). *)
Definition digitOf (c : ascii) : option Z :=
  if (48 <=? byteOf c) && (byteOf c <=? 57) then Some (byteOf c - 48)
  else if (97 <=? lower c) && (lower c <=? 122) then Some (lower c - 97 + 10)
  else None.

(** The loop of [ParseUint(s, 10, 64)] over the bytes still to read, with
    the accumulator [n] (a uint64). *)
Fixpoint parseUintLoop (cs : string) (n : Z) : Z + numErr :=
  match cs with
  | EmptyString => inl n
  | String c rest =>
      match digitOf c with
      | None => inr ErrSyntax
      | Some d =>
          if d >=? 10 then inr ErrSyntax
          else if n >=? maxUint64 / 10 + 1 then inr ErrRange
          else
            let n10 := (n * 10) mod 2 ^ 64 in
            let n1 := (n10 + d) mod 2 ^ 64 in
            if (n1 <? n10) || (n1 >? maxUint64) then inr ErrRange
            else parseUintLoop rest n1
      end
  end.

(** [strconv.ParseUint(s, 10, 64)] *)
Definition ParseUint (s : string) : Z + numErr :=
  match s with
  | EmptyString => inr ErrSyntax
  | _ => parseUintLoop s 0
  end.

(** [strconv.ParseInt(s, 10, 64)] *)
Definition ParseInt (s : string) : Z + numErr :=
  match s with
  | EmptyString => inr ErrSyntax
  | String c r =>
      let neg := Ascii.eqb c "-" in
      let s' := if Ascii.eqb c "+" || neg then r else s in
      match ParseUint s' with
      | inr ErrSyntax => inr ErrSyntax
      | inr ErrRange => inr ErrRange
      | inl un =>
          let cutoff := 2 ^ 63 in
          if negb neg && (un >=? cutoff) then inr ErrRange
          else if neg && (un >? cutoff) then inr ErrRange
          else inl (if neg then - un else un)
      end
  end.

(** [strconv.ParseBool] *)
Definition ParseBool (str : string) : bool + numErr :=
  if String.eqb str "1" || String.eqb str "t" || String.eqb str "T"
     || String.eqb str "true" || String.eqb str "TRUE" || String.eqb str "True"
  then inl true
  else if String.eqb str "0" || String.eqb str "f" || String.eqb str "F"
     || String.eqb str "false" || String.eqb str "FALSE" || String.eqb str "False"
  then inl false
  else inr ErrSyntax.

End strconv.

(** ** package path/filepath (Unix) *)

Module filepath.

(** The elements of a path between its slashes. *)
Fixpoint elements (path : string) : list string :=
  match path with
  | EmptyString => [EmptyString]
  | String c r =>
      if Ascii.eqb c "/" then EmptyString :: elements r
      else match elements r with
           | e :: es => String c e :: es
           | [] => [String c EmptyString]
           end
  end.

(** One turn of the loop of [Clean], on the element [e]; [out] holds the
    elements written so far, the last one first.  An empty element and [.]
    are dropped; [..] removes the last element written when that is a real
    one, is written when the path is not rooted, and is dropped at the
    root. *)
Definition cleanStep (rooted : bool) (out : list string) (e : string)
  : list string :=
  if String.eqb e "" || String.eqb e "." then out
  else if String.eqb e ".." then
    match out with
    | top :: below => if String.eqb top ".." then ".." :: out else below
    | [] => if rooted then [] else [".."]
    end
  else e :: out.

(** [filepath.Clean] *)
Definition Clean (path : string) : string :=
  match path with
  | EmptyString => "."
  | String c _ =>
      let rooted := Ascii.eqb c "/" in
      let out := rev (fold_left (cleanStep rooted) (elements path) []) in
      if rooted then "/" ++ String.concat "/" out
      else match out with
           | [] => "."
           | _ => String.concat "/" out
           end
  end.

(** [filepath.Join]: the elements from the first non-empty one on, joined
    by slashes and cleaned. *)
Fixpoint Join (elem : list string) : string :=
  match elem with
  | [] => ""
  | e :: rest =>
      if String.eqb e "" then Join rest else Clean (String.concat "/" elem)
  end.

End filepath.

(** ** package reflect: kinds, values and the setters used by the package *)

Module reflect.

Inductive Kind : Type :=
| Invalid | Bool
| Int | Int8 | Int16 | Int32 | Int64
| Uint | Uint8 | Uint16 | Uint32 | Uint64 | Uintptr
| Float32 | Float64 | Complex64 | Complex128
| Array | Chan | Func | Interface | Map | Pointer | Slice
| String | Struct | UnsafePointer.

Inductive intKind : Type := KInt | KInt8 | KInt16 | KInt32 | KInt64.
Inductive uintKind : Type := KUint | KUint8 | KUint16 | KUint32 | KUint64.
Inductive floatKind : Type := KFloat32 | KFloat64.

(** The kinds whose values the package never reads or writes. *)
Inductive opaqueKind : Type :=
| KUintptr | KComplex64 | KComplex128 | KArray | KChan | KFunc
| KInterface | KMap | KSlice | KUnsafePointer.

(** The static description of a struct field ([reflect.StructField]): its
    name, whether it is exported ([PkgPath] empty), and the value of its
    [env] tag ([Tag.Get("env")], empty when the tag is absent). *)
Record StructField : Type := mkStructField {
  Name : string;
  exported : bool;
  envTag : string
}.

(** Go values, as far as the package looks into them.  A struct is the
    sequence of its fields in declaration order. *)
Inductive Value `{Externals} : Type :=
| VBool (b : bool)
| VInt (k : intKind) (n : Z)
| VUint (k : uintKind) (n : Z)
| VFloat (k : floatKind) (x : float64)
| VString (s : string)
| VStruct (fs : Fields)
| VNilPtr
| VPtr (elem : Value)
| VOpaque (k : opaqueKind)
with Fields `{Externals} : Type :=
| FNil
| FCons (sf : StructField) (v : Value) (rest : Fields).

Definition kindOfInt (k : intKind) : Kind :=
  match k with
  | KInt => Int | KInt8 => Int8 | KInt16 => Int16
  | KInt32 => Int32 | KInt64 => Int64
  end.

Definition kindOfUint (k : uintKind) : Kind :=
  match k with
  | KUint => Uint | KUint8 => Uint8 | KUint16 => Uint16
  | KUint32 => Uint32 | KUint64 => Uint64
  end.

Definition kindOfOpaque (k : opaqueKind) : Kind :=
  match k with
  | KUintptr => Uintptr | KComplex64 => Complex64 | KComplex128 => Complex128
  | KArray => Array | KChan => Chan | KFunc => Func | KInterface => Interface
  | KMap => Map | KSlice => Slice | KUnsafePointer => UnsafePointer
  end.

(** [v.Kind()] *)
Definition kindOf `{Externals} (v : Value) : Kind :=
  match v with
  | VBool _ => Bool
  | VInt k _ => kindOfInt k
  | VUint k _ => kindOfUint k
  | VFloat KFloat32 _ => Float32
  | VFloat KFloat64 _ => Float64
  | VString _ => String
  | VStruct _ => Struct
  | VNilPtr | VPtr _ => Pointer
  | VOpaque k => kindOfOpaque k
  end.

(** [Kind.String()] *)
Definition kindName (k : Kind) : string :=
  match k with
  | Invalid => "invalid" | Bool => "bool"
  | Int => "int" | Int8 => "int8" | Int16 => "int16"
  | Int32 => "int32" | Int64 => "int64"
  | Uint => "uint" | Uint8 => "uint8" | Uint16 => "uint16"
  | Uint32 => "uint32" | Uint64 => "uint64" | Uintptr => "uintptr"
  | Float32 => "float32" | Float64 => "float64"
  | Complex64 => "complex64" | Complex128 => "complex128"
  | Array => "array" | Chan => "chan" | Func => "func"
  | Interface => "interface" | Map => "map" | Pointer => "ptr"
  | Slice => "slice" | String => "string" | Struct => "struct"
  | UnsafePointer => "unsafe.Pointer"
  end.

(** Width in bits of the integer kinds ([int] and [uint] are 64 bits wide,
    as on the 64-bit targets). *)
Definition intBits (k : intKind) : Z :=
  match k with
  | KInt => 64 | KInt8 => 8 | KInt16 => 16 | KInt32 => 32 | KInt64 => 64
  end.

Definition uintBits (k : uintKind) : Z :=
  match k with
  | KUint => 64 | KUint8 => 8 | KUint16 => 16 | KUint32 => 32 | KUint64 => 64
  end.

(** The conversion [intN(x)] of an int64: keep the low [bits] bits, read
    as two's complement. *)
Definition wrapSigned (bits : Z) (x : Z) : Z :=
  let m := x mod 2 ^ bits in
  if m <? 2 ^ (bits - 1) then m else m - 2 ^ bits.

(** The conversion [uintN(x)] of a uint64. *)
Definition wrapUnsigned (bits : Z) (x : Z) : Z := x mod 2 ^ bits.

(** [v.SetInt(x)]: the field of kind intN stores [intN(x)]. *)
Definition SetInt `{Externals} (k : intKind) (x : Z) : Value :=
  VInt k (wrapSigned (intBits k) x).

(** [v.SetUint(x)] *)
Definition SetUint `{Externals} (k : uintKind) (x : Z) : Value :=
  VUint k (wrapUnsigned (uintBits k) x).

(** [v.SetFloat(x)]: a float32 field stores [float32(x)]. *)
Definition SetFloat `{Externals} (k : floatKind) (x : float64) : Value :=
  match k with
  | KFloat32 => VFloat KFloat32 (toFloat32 x)
  | KFloat64 => VFloat KFloat64 x
  end.

End reflect.

(** ** package cfg *)

Import strings strconv reflect.

(** Go [error] values: a [*strconv.NumError], an error made by [fmt.Errorf]
    without [%w] (or coming from [os] or the YAML decoder), and an error
    made by [fmt.Errorf("<msg>: %w", cause)]. *)
Inductive error : Type :=
| NumError (func num : string) (err : numErr)
| Errorf (msg : string)
| Wrapf (msg : string) (cause : error).

(** What the package asks of the outside world, in order. *)
Inductive event : Type :=
| EvReadFile (fullName : string)
| EvLookupEnv (key : string).

(** The process environment, as [os.Environ] lists it. *)
Definition Environ : Type := list (string * string).

Fixpoint getenv (env : Environ) (key : string) : option string :=
  match env with
  | [] => None
  | (k, v) :: rest => if String.eqb k key then Some v else getenv rest key
  end.

(** [os.LookupEnv]: [syscall.Getenv] finds no variable under the empty
    name, and the first entry of a name otherwise. *)
Definition LookupEnv (env : Environ) (key : string) : option string :=
  if String.eqb key "" then None else getenv env key.

(** What [os.ReadFile] returns for a file name. *)
Inductive readResult : Type :=
| ReadData (data : string)
| ReadNotExist (err : error)
| ReadError (err : error).

Definition FileSystem : Type := string -> readResult.

(** The collaborators of [loadFromYaml]: [yaml.Unmarshal(data, cfg)] for
    [cfg] a pointer to a struct with the fields given (it returns the fields
    as it leaves them), and [filepath.Join]. *)
Class Collaborators `{Externals} : Type := {
  yamlUnmarshal : string -> Fields -> Fields * option error;
  filepathJoin : string -> string -> string
}.

Record parameters : Type := mkParameters {
  paths : list string;
  name : string;
  envPrefix : string
}.

Definition Action : Type := parameters -> parameters.

Definition WithPaths (paths' : list string) : Action :=
  fun o => mkParameters paths' (name o) (envPrefix o).

Definition WithName (name' : string) : Action :=
  fun o => mkParameters (paths o) name' (envPrefix o).

Definition WithEnvPrefix `{Externals} (prefix : string) : Action :=
  fun o => mkParameters (paths o) (name o) (TrimSuffix (ToUpper prefix) "_").

Definition defaultParameters : parameters :=
  mkParameters ["."; "./config"] "config" "APP".

(** [cfg any]: [None] is the nil interface. *)
Definition validateConfig `{Externals} (cfg : option Value) : option error :=
  match cfg with
  | None => Some (Errorf "config must not be nil")
  | Some v =>
      match v with
      | VNilPtr => Some (Errorf "config pointer must not be nil")
      | VPtr elem =>
          match elem with
          | VStruct _ => None
          | _ => Some (Errorf "config must be a pointer to struct")
          end
      | _ => Some (Errorf "config must be a pointer to struct")
      end
  end.

Definition getEnvVarName `{Externals} (field : StructField) (envPrefix : string)
  : string :=
  let envTag := envTag field in
  if negb (String.eqb envTag "") then
    let envName := ToUpper envTag in
    if negb (String.eqb envPrefix "") then envPrefix ++ "_" ++ envName
    else envName
  else "".

Definition setFieldFromEnv `{Externals} (field : Value) (value : string)
  : Value + error :=
  match field with
  | VString _ => inl (VString value)
  | VInt k _ =>
      match ParseInt value with
      | inr err => inr (NumError "ParseInt" value err)
      | inl intVal => inl (SetInt k intVal)
      end
  | VUint k _ =>
      match ParseUint value with
      | inr err => inr (NumError "ParseUint" value err)
      | inl uintVal => inl (SetUint k uintVal)
      end
  | VFloat k _ =>
      match ParseFloat64 value with
      | inr err => inr (NumError "ParseFloat" value err)
      | inl floatVal => inl (SetFloat k floatVal)
      end
  | VBool _ =>
      match ParseBool value with
      | inr err => inr (NumError "ParseBool" value err)
      | inl boolVal => inl (VBool boolVal)
      end
  | _ => inr (Errorf ("unsupported type: " ++ kindName (kindOf field)))
  end.

(** The error [fmt.Errorf("set field %s from env %s: %w", ...)]. *)
Definition setFieldError (fieldName envVar : string) (err : error) : error :=
  Wrapf ("set field " ++ fieldName ++ " from env " ++ envVar) err.

(** [loadStructFromEnv] on the fields of [v] from index [i] on.  The struct
    is changed in place in the source: the function returns the fields as
    the call leaves them, the lookups it made in order, and its error. *)
Fixpoint loadStructFromEnv `{Externals} (env : Environ) (v : Fields)
  (envPrefix : string) {struct v} : Fields * list event * option error :=
  match v with
  | FNil => (FNil, [], None)
  | FCons structField field rest =>
      if negb (exported structField) then
        let '(rest', log, err) := loadStructFromEnv env rest envPrefix in
        (FCons structField field rest', log, err)
      else
        match field with
        | VStruct inner =>
            let '(inner', log1, err1) := loadStructFromEnv env inner envPrefix in
            match err1 with
            | Some err => (FCons structField (VStruct inner') rest, log1, Some err)
            | None =>
                let '(rest', log2, err2) := loadStructFromEnv env rest envPrefix in
                (FCons structField (VStruct inner') rest', (log1 ++ log2)%list, err2)
            end
        | _ =>
            let envVar := getEnvVarName structField envPrefix in
            match LookupEnv env envVar with
            | Some envValue =>
                match setFieldFromEnv field envValue with
                | inr err =>
                    (FCons structField field rest, [EvLookupEnv envVar],
                     Some (setFieldError (Name structField) envVar err))
                | inl field' =>
                    let '(rest', log, err) :=
                      loadStructFromEnv env rest envPrefix in
                    (FCons structField field' rest', EvLookupEnv envVar :: log, err)
                end
            | None =>
                let '(rest', log, err) := loadStructFromEnv env rest envPrefix in
                (FCons structField field rest', EvLookupEnv envVar :: log, err)
            end
        end
  end.

Definition loadFromEnv `{Externals} (env : Environ) (cfg : Fields)
  (params : parameters) : Fields * list event * option error :=
  loadStructFromEnv env cfg (envPrefix params).

(** The loop of [loadFromYaml] over the search paths still to try. *)
Fixpoint loadFromYamlPaths `{Collaborators} (fsys : FileSystem) (cfg : Fields)
  (name : string) (paths : list string) : Fields * list event * option error :=
  match paths with
  | [] => (cfg, [], None)
  | path :: rest =>
      let fullName := filepathJoin path (name ++ ".yaml") in
      match fsys fullName with
      | ReadNotExist _ =>
          let '(cfg', log, err) := loadFromYamlPaths fsys cfg name rest in
          (cfg', EvReadFile fullName :: log, err)
      | ReadError err =>
          (cfg, [EvReadFile fullName], Some (Wrapf ("unread file " ++ fullName) err))
      | ReadData data =>
          match yamlUnmarshal data cfg with
          | (cfg', Some err) =>
              (cfg', [EvReadFile fullName],
               Some (Wrapf ("unparse yaml " ++ fullName) err))
          | (cfg', None) => (cfg', [EvReadFile fullName], None)
          end
      end
  end.

Definition loadFromYaml `{Collaborators} (fsys : FileSystem) (cfg : Fields)
  (parameters : parameters) : Fields * list event * option error :=
  loadFromYamlPaths fsys cfg (name parameters) (paths parameters).

(** [Load]: the argument as the call leaves it, the file reads and
    environment lookups made, and the error returned. *)
Definition Load `{Collaborators} (fsys : FileSystem) (env : Environ)
  (cfg : option Value) (paramsActions : list Action)
  : option Value * list event * option error :=
  match validateConfig cfg with
  | Some err => (cfg, [], Some (Wrapf "invalid config" err))
  | None =>
      match cfg with
      | Some (VPtr (VStruct fs)) =>
          let p := fold_left (fun p paramAction => paramAction p)
                             paramsActions defaultParameters in
          let '(fs1, log1, err1) := loadFromYaml fsys fs p in
          match err1 with
          | Some err =>
              (Some (VPtr (VStruct fs1)), log1,
               Some (Wrapf "unload config file" err))
          | None =>
              let '(fs2, log2, err2) := loadFromEnv env fs1 p in
              (Some (VPtr (VStruct fs2)), (log1 ++ log2)%list,
               match err2 with
               | Some err => Some (Wrapf "load env" err)
               | None => None
               end)
          end
      | _ => (cfg, [], None)
      end
  end.

(** ** The record seen as the sequence of its leaf fields *)

Scheme Value_mut_ind := Induction for Value Sort Prop
  with Fields_mut_ind := Induction for Fields Sort Prop.

(** A field that is not a struct, with [canSet]: what [field.CanSet()]
    answers for it, that is whether it and every struct field around it is
    exported. *)
Record Leaf `{Externals} : Type := mkLeaf {
  canSet : bool;
  leafField : StructField;
  leafValue : Value
}.

Arguments mkLeaf {_} canSet leafField leafValue.

(** The leaf fields of a struct in the order of the traversal, nested
    structs opened in place. *)
Fixpoint leaves `{Externals} (settable : bool) (fs : Fields) : list Leaf :=
  match fs with
  | FNil => []
  | FCons sf v rest =>
      match v with
      | VStruct inner =>
          (leaves (settable && exported sf) inner ++ leaves settable rest)%list
      | _ => mkLeaf (settable && exported sf) sf v :: leaves settable rest
      end
  end.

(** Two structs of the same type: the same fields in the same order, with
    values of the same kind, nested structs included. *)
Fixpoint sameType `{Externals} (a b : Fields) {struct a} : Prop :=
  match a, b with
  | FNil, FNil => True
  | FCons sf v rest, FCons sf' v' rest' =>
      sf = sf'
      /\ match v, v' with
         | VStruct inner, VStruct inner' => sameType inner inner'
         | VStruct _, _ => False
         | _, _ => kindOf v = kindOf v'
         end
      /\ sameType rest rest'
  | _, _ => False
  end.

(** The body of the loop of [loadStructFromEnv], run over a sequence of
    leaves. *)
Fixpoint loadLeaves `{Externals} (env : Environ) (ls : list Leaf)
  (envPrefix : string) : list Leaf * list event * option error :=
  match ls with
  | [] => ([], [], None)
  | l :: rest =>
      if negb (canSet l) then
        let '(rest', log, err) := loadLeaves env rest envPrefix in
        (l :: rest', log, err)
      else
        let envVar := getEnvVarName (leafField l) envPrefix in
        match LookupEnv env envVar with
        | Some envValue =>
            match setFieldFromEnv (leafValue l) envValue with
            | inr err =>
                (l :: rest, [EvLookupEnv envVar],
                 Some (setFieldError (Name (leafField l)) envVar err))
            | inl field' =>
                let '(rest', log, err) := loadLeaves env rest envPrefix in
                (mkLeaf true (leafField l) field' :: rest',
                 EvLookupEnv envVar :: log, err)
            end
        | None =>
            let '(rest', log, err) := loadLeaves env rest envPrefix in
            (l :: rest', EvLookupEnv envVar :: log, err)
        end
  end.

(** The lookup made for a leaf. *)
Definition lookupOf `{Externals} (envPrefix : string) (l : Leaf) : event :=
  EvLookupEnv (getEnvVarName (leafField l) envPrefix).


Definition isStruct `{Externals} (v : Value) : bool :=
  match v with
  | VStruct _ => true
  | _ => false
  end.

(** ** Literals *)

Definition inIntRange (k : intKind) (n : Z) : bool :=
  (- 2 ^ (intBits k - 1) <=? n) && (n <? 2 ^ (intBits k - 1)).

Definition inUintRange (k : uintKind) (n : Z) : bool :=
  (0 <=? n) && (n <? 2 ^ uintBits k).

(** The value a literal denotes at the kind of the field [field]: the
    string itself, a base-10 integer that fits the declared width, a
    float (rounded to the declared width), one of the boolean tokens.
    [None] when the kind is not scalar or the literal is not valid for
    it. *)
Definition literalValue `{Externals} (field : Value) (lit : string)
  : option Value :=
  match field with
  | VString _ => Some (VString lit)
  | VInt k _ =>
      match ParseInt lit with
      | inl n => if inIntRange k n then Some (VInt k n) else None
      | inr _ => None
      end
  | VUint k _ =>
      match ParseUint lit with
      | inl n => if inUintRange k n then Some (VUint k n) else None
      | inr _ => None
      end
  | VFloat k _ =>
      match ParseFloat64 lit with
      | inl x => Some (SetFloat k x)
      | inr _ => None
      end
  | VBool _ =>
      match ParseBool lit with
      | inl b => Some (VBool b)
      | inr _ => None
      end
  | _ => None
  end.

(** Base-10 notation: a string of decimal digits and the number it
    writes (continuing from [n]). *)
Definition isDigit (c : ascii) : bool :=
  (48 <=? byteOf c) && (byteOf c <=? 57).

Fixpoint allDigits (s : string) : bool :=
  match s with
  | EmptyString => true
  | String.String c r => isDigit c && allDigits r
  end.

Fixpoint decimalFrom (n : Z) (s : string) : Z :=
  match s with
  | EmptyString => n
  | String.String c r => decimalFrom (n * 10 + (byteOf c - 48)) r
  end.

Definition decimalValue (s : string) : Z := decimalFrom 0 s.

Definition trueTokens : list string :=
  ["1"; "t"; "T"; "TRUE"; "true"; "True"].

Definition falseTokens : list string :=
  ["0"; "f"; "F"; "FALSE"; "false"; "False"].

(** ** Prefixes *)

(** Two strings that differ only in the case of their ASCII letters. *)
Fixpoint sameUpToCase (p q : string) : bool :=
  match p, q with
  | EmptyString, EmptyString => true
  | String.String a p', String.String b q' =>
      Ascii.eqb (lowerByte a) (lowerByte b) && sameUpToCase p' q'
  | _, _ => false
  end.

(** The prefix that [WithEnvPrefix(prefix)] stores. *)
Definition normalizedPrefix `{Externals} (prefix : string) : string :=
  envPrefix (WithEnvPrefix prefix defaultParameters).

(** ** Arguments of [Load] that are not a pointer to a struct *)

Inductive BadArgument `{Externals} : option Value -> Prop :=
| BadNil : BadArgument None
| BadNonPointer v : kindOf v <> Pointer -> BadArgument (Some v)
| BadNilPointer : BadArgument (Some VNilPtr)
| BadPointerToNonStruct elem :
    kindOf elem <> Struct -> BadArgument (Some (VPtr elem)).

(** ** Instances and records used in the examples *)

(** Records without float fields and ASCII names reach neither external. *)
Definition asciiNoFloat : Externals :=
  {| float64 := Empty_set;
     ParseFloat64 := fun _ => inr ErrSyntax;
     toFloat32 := fun x => x;
     mapUnicodeToUpper := fun s => s |}.

(** A decoder that finds no key of the record in the document and leaves
    the record as it is, and [filepath.Join]. *)
Definition plainCollaborators : @Collaborators asciiNoFloat :=
  {| yamlUnmarshal := fun _ fs => (fs, None);
     filepathJoin := fun dir file => filepath.Join [dir; file] |}.

Definition field (name tag : string) : StructField :=
  mkStructField name true tag.

Definition unexportedField (name tag : string) : StructField :=
  mkStructField name false tag.

(** A field [Timeout int] without override key, with [APP_TIMEOUT] set. *)
Definition timeoutRecord : @Fields asciiNoFloat :=
  FCons (field "Timeout" "") (VInt KInt 0) FNil.

Definition timeoutEnv : Environ := [("APP_TIMEOUT", "99")].

(** [{Server: {Port int `env:"SERVER_PORT"`}}] with Port 3000 from the file
    and [APP_SERVER_PORT=8080]. *)
Definition serverRecord : @Fields asciiNoFloat :=
  FCons (field "Server" "")
        (VStruct (FCons (field "Port" "SERVER_PORT") (VInt KInt 3000) FNil))
        FNil.

Definition serverEnv : Environ := [("APP_SERVER_PORT", "8080")].

(** An unexported field, a field whose variable holds no number, and a
    field after it; all three variables are set. *)
Definition abortRecord : @Fields asciiNoFloat :=
  FCons (unexportedField "a" "A") (VInt KInt 0)
    (FCons (field "B" "B") (VInt KInt 0)
       (FCons (field "C" "C") (VInt KInt 0) FNil)).

Definition abortEnv : Environ := [("A", "1"); ("B", "x"); ("C", "5")].

(** A string field, an integer field whose variable holds [notanumber],
    and a boolean field after it. *)
Definition serviceRecord : @Fields asciiNoFloat :=
  FCons (field "Name" "NAME") (VString "")
    (FCons (field "Port" "PORT") (VInt KInt 3000)
       (FCons (field "Debug" "DEBUG") (VBool false) FNil)).

Definition serviceEnv : Environ :=
  [("APP_NAME", "svc"); ("APP_PORT", "notanumber"); ("APP_DEBUG", "true")].

(** An unexported tagged field, an unexported nested record and an
    exported field; all three variables are set. *)
Definition secretRecord : @Fields asciiNoFloat :=
  FCons (unexportedField "secret" "SECRET") (VString "s3")
    (FCons (unexportedField "inner" "")
           (VStruct (FCons (field "Port" "PORT") (VInt KInt 1) FNil))
       (FCons (field "Name" "NAME") (VString "n") FNil)).

Definition secretEnv : Environ :=
  [("APP_SECRET", "x"); ("APP_PORT", "2"); ("APP_NAME", "m")].

(** An [int8] field with the variable set to 300. *)
Definition int8Record : @Fields asciiNoFloat :=
  FCons (field "N" "N") (VInt KInt8 0) FNil.

Definition int8Env : Environ := [("APP_N", "300")].

(** [SimpleConfig] of the test [TestNoEnvOverrideWithoutTag]. *)
Definition simpleConfig : @Fields asciiNoFloat :=
  FCons (field "Name" "") (VString "from-file")
    (FCons (field "Version" "VERSION") (VString "1.0.0") FNil).

Definition simpleEnv : Environ :=
  [("TEST_NAME", "should-not-work"); ("TEST_VERSION", "2.0.0")].

(** The environment of the test [TestEnvPrefix]. *)
Definition prefixEnv : Environ :=
  [("MYAPP_SERVER_PORT", "7070"); ("SERVER_PORT", "8080")].

Definition noFile : FileSystem := fun _ => ReadNotExist (Errorf "no such file").

(** ** The rest of the package: resolved options, [MustLoad] *)

(** The parameters [Load] works with: the defaults, changed by the options
    in the order given. *)
Definition resolveParameters (paramsActions : list Action) : parameters :=
  fold_left (fun p paramAction => paramAction p) paramsActions defaultParameters.

(** The name of the file [loadFromYaml] reads under a search path. *)
Definition configFile `{Collaborators} (p : parameters) (path : string)
  : string :=
  filepathJoin path (name p ++ ".yaml").

(** [strconv.Quote], used by the [Error] method of [strconv.NumError]. *)
Class Quoting : Type := {
  strconvQuote : string -> string
}.

Definition numErrString (e : numErr) : string :=
  match e with
  | ErrSyntax => "invalid syntax"
  | ErrRange => "value out of range"
  end.

(** [err.Error()] *)
Fixpoint Error `{Quoting} (e : error) : string :=
  match e with
  | NumError func num err =>
      "strconv." ++ func ++ ": parsing " ++ strconvQuote num ++ ": "
      ++ numErrString err
  | Errorf msg => msg
  | Wrapf msg cause => msg ++ ": " ++ Error cause
  end.

(** How a call ends: it returns, or it panics with a value. *)
Inductive outcome : Type :=
| Returned
| Panicked (v : string).

(** [MustLoad]: the argument as the call leaves it, the reads and lookups
    made, and how the call ends. *)
Definition MustLoad `{Collaborators} `{Quoting} (fsys : FileSystem)
  (env : Environ) (cfg : option Value) (paramsAction : list Action)
  : option Value * list event * outcome :=
  let '(cfg', log, err) := Load fsys env cfg paramsAction in
  match err with
  | Some err => (cfg', log, Panicked ("cfg: failed to load config: " ++ Error err))
  | None => (cfg', log, Returned)
  end.

(** The kinds [setFieldFromEnv] has a case for. *)
Definition supported `{Externals} (v : Value) : bool :=
  match v with
  | VBool _ | VInt _ _ | VUint _ _ | VFloat _ _ | VString _ => true
  | _ => false
  end.

Definition isRead (e : event) : bool :=
  match e with
  | EvReadFile _ => true
  | EvLookupEnv _ => false
  end.

Definition isLookup (e : event) : bool :=
  match e with
  | EvReadFile _ => false
  | EvLookupEnv _ => true
  end.

(** An option that leaves the environment prefix as it finds it. *)
Definition keepsPrefix (a : Action) : Prop :=
  forall o, envPrefix (a o) = envPrefix o.

(** A signed base-10 literal: the number written by the digits after the
    sign. *)
Definition signedValue (sign digits : string) : Z :=
  if String.eqb sign "-" then - decimalValue digits else decimalValue digits.

(** Errors that carry no number do not reach [strconv.Quote]. *)
Definition noQuote : Quoting := {| strconvQuote := fun s => s |}.

(** A file system with one file, and one whose only file cannot be read. *)
Definition oneFile (fullName data : string) : FileSystem :=
  fun f => if String.eqb f fullName then ReadData data
           else ReadNotExist (Errorf "no such file").

Definition lockedFile (fullName : string) : FileSystem :=
  fun f => if String.eqb f fullName then ReadError (Errorf "permission denied")
           else ReadNotExist (Errorf "no such file").

(** Two fields that share the override key [PORT]. *)
Definition twoPorts : @Fields asciiNoFloat :=
  FCons (field "Http" "")
        (VStruct (FCons (field "Port" "PORT") (VInt KInt 80) FNil))
    (FCons (field "Admin" "")
           (VStruct (FCons (field "Port" "port") (VInt KInt 81) FNil))
       FNil).

Definition portEnv : Environ := [("APP_PORT", "9000")].

(** A tagged field of slice kind between two string fields. *)
Definition tagsRecord : @Fields asciiNoFloat :=
  FCons (field "Name" "NAME") (VString "n")
    (FCons (field "Tags" "TAGS") (VOpaque KSlice)
       (FCons (field "Zone" "ZONE") (VString "z") FNil)).






(** Three tagged fields with lower-case override keys, the variable of the
    last one holding no number. *)
Definition hostRecord : @Fields asciiNoFloat :=
  FCons (field "Host" "host") (VString "localhost")
    (FCons (field "Name" "name") (VString "from-file")
       (FCons (field "Port" "port") (VInt KInt 3000) FNil)).

Definition hostEnv : Environ :=
  [("APP_HOST", "h"); ("APP_NAME", "svc"); ("APP_PORT", "notanumber")].

(** A field with a lower-case override key, for a pass under the
    lower-case prefix [app]. *)
Definition lowerKeyRecord : @Fields asciiNoFloat :=
  FCons (field "C" "c") (VInt KInt 0) FNil.

Definition lowerKeyEnv : Environ := [("APP_C", "5")].

(** ** The three results of the traversal *)

Definition recordAfter `{Externals} (env : Environ) (fs : Fields)
  (envPrefix : string) : Fields :=
  fst (fst (loadStructFromEnv env fs envPrefix)).

Definition lookupsMade `{Externals} (env : Environ) (fs : Fields)
  (envPrefix : string) : list event :=
  snd (fst (loadStructFromEnv env fs envPrefix)).

Definition errorReturned `{Externals} (env : Environ) (fs : Fields)
  (envPrefix : string) : option error :=
  snd (loadStructFromEnv env fs envPrefix).

(** * Properties *)

Section Traversal.
Context `{Externals}.

(** Induction on the fields of a struct, with the hypothesis available for
    the fields of a nested struct. *)
Lemma Fields_nested_ind (P : Fields -> Prop) :
  P FNil ->
  (forall sf v rest,
      (forall inner, v = VStruct inner -> P inner) ->
      P rest -> P (FCons sf v rest)) ->
  forall fs, P fs.
Proof.
  intros HN HC.
  apply (Fields_mut_ind _ (fun v => forall inner, v = VStruct inner -> P inner) P);
    try (intros; discriminate); auto.
  intros fs IH inner E. injection E as <-. exact IH.
Qed.

Lemma loadLeaves_app env P ls1 ls2 :
  loadLeaves env (ls1 ++ ls2) P =
  match loadLeaves env ls1 P with
  | (ls1', log1, Some err) => ((ls1' ++ ls2)%list, log1, Some err)
  | (ls1', log1, None) =>
      let '(ls2', log2, err2) := loadLeaves env ls2 P in
      ((ls1' ++ ls2')%list, (log1 ++ log2)%list, err2)
  end.
Proof.
  induction ls1 as [|l ls1 IH]; simpl.
  - destruct (loadLeaves env ls2 P) as [[ls2' log2] err2]. reflexivity.
  - destruct (canSet l); simpl.
    + destruct (LookupEnv env (getEnvVarName (leafField l) P)) as [s|].
      * destruct (setFieldFromEnv (leafValue l) s) as [v'|e]; [|reflexivity].
        rewrite IH.
        destruct (loadLeaves env ls1 P) as [[ls1' log1] [e1|]]; [reflexivity|].
        destruct (loadLeaves env ls2 P) as [[ls2' log2] err2]. reflexivity.
      * rewrite IH.
        destruct (loadLeaves env ls1 P) as [[ls1' log1] [e1|]]; [reflexivity|].
        destruct (loadLeaves env ls2 P) as [[ls2' log2] err2]. reflexivity.
    + rewrite IH.
      destruct (loadLeaves env ls1 P) as [[ls1' log1] [e1|]]; [reflexivity|].
      destruct (loadLeaves env ls2 P) as [[ls2' log2] err2]. reflexivity.
Qed.

Lemma loadLeaves_unsettable env P ls :
  Forall (fun l => canSet l = false) ls ->
  loadLeaves env ls P = (ls, [], None).
Proof.
  induction 1 as [|l ls Hl _ IH]; simpl; [reflexivity|].
  rewrite Hl, IH. reflexivity.
Qed.

Lemma leaves_unsettable fs :
  Forall (fun l => canSet l = false) (leaves false fs).
Proof.
  induction fs as [|sf v rest IHv IHrest] using Fields_nested_ind; simpl.
  - constructor.
  - destruct v; simpl; try (constructor; [reflexivity|exact IHrest]).
    apply Forall_app. split; [apply (IHv _ eq_refl)|exact IHrest].
Qed.

Lemma leaves_scalar b sf v rest :
  isStruct v = false ->
  leaves b (FCons sf v rest) = mkLeaf (b && exported sf) sf v :: leaves b rest.
Proof. destruct v; intros E; try discriminate; reflexivity. Qed.

Lemma loadStructFromEnv_unexported env P sf v rest :
  exported sf = false ->
  loadStructFromEnv env (FCons sf v rest) P =
  let '(rest', log, err) := loadStructFromEnv env rest P in
  (FCons sf v rest', log, err).
Proof. intros Ex. cbn [loadStructFromEnv]. rewrite Ex. reflexivity. Qed.

Lemma loadStructFromEnv_scalar env P sf v rest :
  exported sf = true -> isStruct v = false ->
  loadStructFromEnv env (FCons sf v rest) P =
  match LookupEnv env (getEnvVarName sf P) with
  | Some envValue =>
      match setFieldFromEnv v envValue with
      | inr err =>
          (FCons sf v rest, [EvLookupEnv (getEnvVarName sf P)],
           Some (setFieldError (Name sf) (getEnvVarName sf P) err))
      | inl field' =>
          let '(rest', log, err) := loadStructFromEnv env rest P in
          (FCons sf field' rest', EvLookupEnv (getEnvVarName sf P) :: log, err)
      end
  | None =>
      let '(rest', log, err) := loadStructFromEnv env rest P in
      (FCons sf v rest', EvLookupEnv (getEnvVarName sf P) :: log, err)
  end.
Proof.
  intros Ex E. cbn [loadStructFromEnv]. rewrite Ex.
  destruct v; try discriminate; reflexivity.
Qed.

Lemma loadStructFromEnv_struct env P sf inner rest :
  exported sf = true ->
  loadStructFromEnv env (FCons sf (VStruct inner) rest) P =
  let '(inner', log1, err1) := loadStructFromEnv env inner P in
  match err1 with
  | Some err => (FCons sf (VStruct inner') rest, log1, Some err)
  | None =>
      let '(rest', log2, err2) := loadStructFromEnv env rest P in
      (FCons sf (VStruct inner') rest', (log1 ++ log2)%list, err2)
  end.
Proof. intros Ex. cbn [loadStructFromEnv]. rewrite Ex. reflexivity. Qed.

(** A field set from the environment keeps its kind. *)
Lemma setFieldFromEnv_kind v s v' :
  setFieldFromEnv v s = inl v' -> kindOf v' = kindOf v.
Proof.
  destruct v; cbn [setFieldFromEnv]; try discriminate.
  - destruct (ParseBool s); [|discriminate]. intros [= <-]. reflexivity.
  - destruct (ParseInt s); [|discriminate]. intros [= <-]. reflexivity.
  - destruct (ParseUint s); [|discriminate]. intros [= <-]. reflexivity.
  - destruct (ParseFloat64 s); [|discriminate]. intros [= <-].
    destruct k; reflexivity.
  - intros [= <-]. reflexivity.
Qed.

Lemma setFieldFromEnv_scalar v s v' :
  setFieldFromEnv v s = inl v' -> isStruct v' = false.
Proof.
  intros E. pose proof (setFieldFromEnv_kind _ _ _ E) as K.
  destruct v'; try reflexivity.
  destruct v; try discriminate E; cbn [kindOf] in K;
    try discriminate K; destruct k; discriminate K.
Qed.

(** The traversal of a struct is the loop body run over its leaves in
    order: same lookups, same error, and the leaves of the struct it
    leaves are the leaves the loop leaves. *)
Lemma loadStructFromEnv_leaves env P fs :
  loadLeaves env (leaves true fs) P =
  let '(fs', log, err) := loadStructFromEnv env fs P in
  (leaves true fs', log, err).
Proof.
  induction fs as [|sf v rest IHv IHrest] using Fields_nested_ind;
    [reflexivity|].
  destruct (exported sf) eqn:Ex; destruct (isStruct v) eqn:St.
  - destruct v; try discriminate St.
    rewrite (loadStructFromEnv_struct _ _ _ _ _ Ex).
    cbn [leaves]. rewrite Ex. cbn [andb].
    rewrite loadLeaves_app, (IHv _ eq_refl).
    destruct (loadStructFromEnv env fs P) as [[inner' log1] [e1|]].
    + cbn [leaves andb]. rewrite Ex. reflexivity.
    + rewrite IHrest.
      destruct (loadStructFromEnv env rest P) as [[rest' log2] err2].
      cbn [leaves andb]. rewrite Ex. reflexivity.
  - rewrite (loadStructFromEnv_scalar _ _ _ _ _ Ex St), (leaves_scalar _ _ _ _ St).
    rewrite Ex. cbn [loadLeaves canSet leafField leafValue negb andb].
    destruct (LookupEnv env (getEnvVarName sf P)) as [s|].
    + destruct (setFieldFromEnv v s) as [v'|e] eqn:Hset.
      * rewrite IHrest.
        destruct (loadStructFromEnv env rest P) as [[rest' log] err].
        rewrite (leaves_scalar _ _ _ _ (setFieldFromEnv_scalar _ _ _ Hset)), Ex.
        reflexivity.
      * rewrite (leaves_scalar _ _ _ _ St), Ex. reflexivity.
    + rewrite IHrest.
      destruct (loadStructFromEnv env rest P) as [[rest' log] err].
      rewrite (leaves_scalar _ _ _ _ St), Ex. reflexivity.
  - destruct v; try discriminate St.
    rewrite (loadStructFromEnv_unexported _ _ _ _ _ Ex).
    cbn [leaves]. rewrite Ex. cbn [andb].
    rewrite loadLeaves_app, (loadLeaves_unsettable _ _ _ (leaves_unsettable fs)).
    rewrite IHrest.
    destruct (loadStructFromEnv env rest P) as [[rest' log] err].
    cbn [leaves andb]. rewrite Ex. reflexivity.
  - rewrite (loadStructFromEnv_unexported _ _ _ _ _ Ex), (leaves_scalar _ _ _ _ St).
    rewrite Ex. cbn [loadLeaves canSet negb andb].
    rewrite IHrest.
    destruct (loadStructFromEnv env rest P) as [[rest' log] err].
    rewrite (leaves_scalar _ _ _ _ St), Ex. reflexivity.
Qed.

End Traversal.

Section Leaves.
Context `{Externals}.

Lemma getEnvVarName_untagged sf P : envTag sf = "" -> getEnvVarName sf P = "".
Proof. unfold getEnvVarName. intros ->. reflexivity. Qed.

Lemma LookupEnv_empty env : LookupEnv env "" = None.
Proof. reflexivity. Qed.

(** A leaf that cannot be set, or that has no [env] tag, is left as it
    is by the loop. *)
Lemma loadLeaves_frame env P ls :
  forall ls' log err i l,
    loadLeaves env ls P = (ls', log, err) ->
    nth_error ls i = Some l ->
    canSet l = false \/ envTag (leafField l) = "" ->
    nth_error ls' i = Some l.
Proof.
  induction ls as [|a ls IH]; intros ls' log err i l E Hi Hl.
  - destruct i; discriminate Hi.
  - cbn [loadLeaves] in E.
    destruct (loadLeaves env ls P) as [[rest' logr] errr] eqn:Er.
    assert (Hrest : forall j, nth_error ls j = Some l -> nth_error rest' j = Some l)
      by (intros j Hj; eapply IH; eauto).
    destruct (canSet a) eqn:Ca; cbn [negb] in E.
    + destruct (LookupEnv env (getEnvVarName (leafField a) P)) as [s|] eqn:Lk.
      * destruct i as [|j]; cbn [nth_error] in Hi.
        { injection Hi as ->. destruct Hl as [Hl|Hl]; [congruence|].
          rewrite (getEnvVarName_untagged _ _ Hl), LookupEnv_empty in Lk.
          discriminate Lk. }
        destruct (setFieldFromEnv (leafValue a) s); injection E as <- <- <-;
          cbn [nth_error]; auto.
      * injection E as <- <- <-. destruct i as [|j]; cbn [nth_error] in *; auto.
    + injection E as <- <- <-. destruct i as [|j]; cbn [nth_error] in *; auto.
Qed.

(** The loop changes no field description and no [canSet]. *)
Lemma loadLeaves_shape env P ls :
  forall ls' log err,
    loadLeaves env ls P = (ls', log, err) ->
    map (fun l => (canSet l, leafField l)) ls'
    = map (fun l => (canSet l, leafField l)) ls.
Proof.
  induction ls as [|a ls IH]; intros ls' log err E; cbn [loadLeaves] in E.
  - injection E as <- <- <-. reflexivity.
  - destruct (loadLeaves env ls P) as [[rest' logr] errr] eqn:Er.
    specialize (IH _ _ _ eq_refl).
    destruct (canSet a) eqn:Ca; cbn [negb] in E.
    + destruct (LookupEnv env (getEnvVarName (leafField a) P)) as [s|].
      * destruct (setFieldFromEnv (leafValue a) s); injection E as <- <- <-;
          cbn [map canSet leafField]; rewrite ?IH, ?Ca; reflexivity.
      * injection E as <- <- <-. cbn [map]. rewrite IH. reflexivity.
    + injection E as <- <- <-. cbn [map]. rewrite IH. reflexivity.
Qed.

(** When the loop returns no error, every leaf that can be set and whose
    variable is present holds the value set from it. *)
Lemma loadLeaves_applied env P ls :
  forall ls' log i l s,
    loadLeaves env ls P = (ls', log, None) ->
    nth_error ls i = Some l ->
    canSet l = true ->
    LookupEnv env (getEnvVarName (leafField l) P) = Some s ->
    exists v', setFieldFromEnv (leafValue l) s = inl v'
               /\ nth_error ls' i = Some (mkLeaf true (leafField l) v').
Proof.
  induction ls as [|a ls IH]; intros ls' log i l s E Hi Hc Hs.
  - destruct i; discriminate Hi.
  - cbn [loadLeaves] in E.
    destruct (loadLeaves env ls P) as [[rest' logr] errr] eqn:Er.
    destruct i as [|j]; cbn [nth_error] in Hi.
    + injection Hi as ->. rewrite Hc, Hs in E. cbn [negb] in E.
      destruct (setFieldFromEnv (leafValue l) s) as [v'|e]; [|discriminate E].
      injection E as <- <- ->. exists v'. split; reflexivity.
    + assert (errr = None /\ exists a', ls' = a' :: rest') as [-> [a' ->]].
      { destruct (canSet a); cbn [negb] in E.
        - destruct (LookupEnv env (getEnvVarName (leafField a) P)) as [t|].
          + destruct (setFieldFromEnv (leafValue a) t); [|discriminate E].
            injection E as <- <- ->. eauto.
          + injection E as <- <- ->. eauto.
        - injection E as <- <- ->. eauto. }
      cbn [nth_error]. eapply IH; eauto.
Qed.

(** The lookups made are those of the leaves that can be set, in order,
    up to the point where the loop stops. *)
Lemma loadLeaves_lookups env P ls :
  forall ls' log err,
    loadLeaves env ls P = (ls', log, err) ->
    exists n, log = firstn n (map (lookupOf P) (filter canSet ls)).
Proof.
  induction ls as [|a ls IH]; intros ls' log err E; cbn [loadLeaves] in E.
  - injection E as <- <- <-. exists O. reflexivity.
  - destruct (loadLeaves env ls P) as [[rest' logr] errr] eqn:Er.
    destruct (IH _ _ _ eq_refl) as [n Hn].
    cbn [filter]. destruct (canSet a) eqn:Ca; cbn [negb] in E.
    + destruct (LookupEnv env (getEnvVarName (leafField a) P)) as [s|].
      * destruct (setFieldFromEnv (leafValue a) s); injection E as <- <- <-.
        -- exists (S n). cbn [map firstn]. rewrite <- Hn. reflexivity.
        -- exists 1%nat. reflexivity.
      * injection E as <- <- <-. exists (S n). cbn [map firstn].
        rewrite <- Hn. reflexivity.
    + injection E as <- <- <-. exists n. exact Hn.
Qed.

(** An error of the loop comes from a leaf that can be set, whose variable
    is present with a value its kind does not accept; the leaves before it
    were all handled, and it and the leaves after it are as they were. *)
Lemma loadLeaves_error env P ls :
  forall ls' log e,
    loadLeaves env ls P = (ls', log, Some e) ->
    exists pre l post pre' logpre s cause,
      ls = (pre ++ l :: post)%list
      /\ loadLeaves env pre P = (pre', logpre, None)
      /\ canSet l = true
      /\ LookupEnv env (getEnvVarName (leafField l) P) = Some s
      /\ setFieldFromEnv (leafValue l) s = inr cause
      /\ ls' = (pre' ++ l :: post)%list
      /\ log = (logpre ++ [lookupOf P l])%list
      /\ e = setFieldError (Name (leafField l))
                           (getEnvVarName (leafField l) P) cause.
Proof.
  induction ls as [|a ls IH]; intros ls' log e E; cbn [loadLeaves] in E.
  - discriminate E.
  - destruct (loadLeaves env ls P) as [[rest' logr] errr] eqn:Er.
    destruct (canSet a) eqn:Ca; cbn [negb] in E.
    + destruct (LookupEnv env (getEnvVarName (leafField a) P)) as [s|] eqn:Lk.
      * destruct (setFieldFromEnv (leafValue a) s) as [v'|cause] eqn:Hset.
        -- injection E as <- <- ->.
           destruct (IH _ _ _ eq_refl)
             as (pre & l & post & pre' & logpre & s' & cause & -> & Hp & Hc
                 & Hs & Hf & -> & -> & ->).
           exists (a :: pre), l, post, (mkLeaf true (leafField a) v' :: pre'),
             (lookupOf P a :: logpre), s', cause.
           repeat split; auto.
           cbn [loadLeaves]. rewrite Ca, Lk, Hset, Hp. reflexivity.
        -- injection E as <- <- <-.
           exists [], a, ls, [], [], s, cause. repeat split; auto.
      * injection E as <- <- ->.
        destruct (IH _ _ _ eq_refl)
          as (pre & l & post & pre' & logpre & s' & cause & -> & Hp & Hc
              & Hs & Hf & -> & -> & ->).
        exists (a :: pre), l, post, (a :: pre'), (lookupOf P a :: logpre),
          s', cause.
        repeat split; auto.
        cbn [loadLeaves]. rewrite Ca, Lk, Hp. reflexivity.
    + injection E as <- <- ->.
      destruct (IH _ _ _ eq_refl)
        as (pre & l & post & pre' & logpre & s' & cause & -> & Hp & Hc
            & Hs & Hf & -> & -> & ->).
      exists (a :: pre), l, post, (a :: pre'), logpre, s', cause.
      repeat split; auto.
      cbn [loadLeaves]. rewrite Ca, Hp. reflexivity.
Qed.

End Leaves.

Section Override.
Context `{Externals}.

Lemma loadLeaves_of_record env P fs :
  loadLeaves env (leaves true fs) P =
  (leaves true (recordAfter env fs P), lookupsMade env fs P,
   errorReturned env fs P).
Proof.
  rewrite loadStructFromEnv_leaves.
  unfold recordAfter, lookupsMade, errorReturned.
  destruct (loadStructFromEnv env fs P) as [[fs' log] err]. reflexivity.
Qed.

(** The traversal changes no field description and no [canSet]: the leaf at
    a position before and after is the same field. *)
Lemma loadStructFromEnv_shape env P fs :
  map (fun l => (canSet l, leafField l)) (leaves true (recordAfter env fs P))
  = map (fun l => (canSet l, leafField l)) (leaves true fs).
Proof. eapply loadLeaves_shape, loadLeaves_of_record. Qed.

Lemma sameType_refl fs : sameType fs fs.
Proof.
  induction fs as [|sf v rest IHv IHrest] using Fields_nested_ind;
    cbn [sameType]; [exact I|].
  repeat split; [|exact IHrest].
  destruct v; try reflexivity. apply (IHv _ eq_refl).
Qed.

Lemma sameType_scalar sf v v' rest rest' :
  isStruct v = false -> kindOf v' = kindOf v -> sameType rest rest' ->
  sameType (FCons sf v rest) (FCons sf v' rest').
Proof.
  intros St K Hr. cbn [sameType]. repeat split; [|exact Hr].
  destruct v; try discriminate St; destruct v'; try (symmetry; exact K);
    cbn [kindOf] in K; try discriminate K;
    repeat match goal with
           | k : intKind |- _ => destruct k
           | k : uintKind |- _ => destruct k
           | k : floatKind |- _ => destruct k
           | k : opaqueKind |- _ => destruct k
           end; discriminate K.
Qed.

(** The pass keeps the type of the record: it changes values of scalar
    fields only, and each keeps its kind. *)
Lemma loadStructFromEnv_sameType env P fs :
  sameType fs (recordAfter env fs P).
Proof.
  unfold recordAfter.
  induction fs as [|sf v rest IHv IHrest] using Fields_nested_ind;
    [exact I|].
  destruct (exported sf) eqn:Ex; [destruct (isStruct v) eqn:St|].
  - destruct v; try discriminate St.
    rewrite (loadStructFromEnv_struct _ _ _ _ _ Ex).
    specialize (IHv _ eq_refl).
    destruct (loadStructFromEnv env fs P) as [[inner' log1] [e1|]].
    + cbn [fst sameType]. repeat split; [exact IHv|apply sameType_refl].
    + destruct (loadStructFromEnv env rest P) as [[rest' log2] err2].
      cbn [fst sameType] in *. repeat split; assumption.
  - rewrite (loadStructFromEnv_scalar _ _ _ _ _ Ex St).
    destruct (loadStructFromEnv env rest P) as [[rest' log2] err2].
    cbn [fst] in IHrest.
    destruct (LookupEnv env (getEnvVarName sf P)) as [s|].
    + destruct (setFieldFromEnv v s) as [w|e] eqn:Hset; cbn [fst].
      * apply sameType_scalar;
          [exact St|exact (setFieldFromEnv_kind _ _ _ Hset)|exact IHrest].
      * apply sameType_refl.
    + cbn [fst]. apply sameType_scalar; [exact St|reflexivity|exact IHrest].
  - rewrite (loadStructFromEnv_unexported _ _ _ _ _ Ex).
    destruct (loadStructFromEnv env rest P) as [[rest' log2] err2].
    cbn [fst sameType] in *. repeat split; [|exact IHrest].
    destruct v; try reflexivity. apply sameType_refl.
Qed.

(** C1: a field that carries no override key (an empty [env] tag) has the
    same value after the environment-override pass as before it, for every
    record, every prefix and every content of the environment. *)
Theorem untagged_field_unchanged env P fs i l :
  nth_error (leaves true fs) i = Some l ->
  envTag (leafField l) = "" ->
  nth_error (leaves true (recordAfter env fs P)) i = Some l.
Proof.
  intros Hi Ht.
  eapply loadLeaves_frame; [apply loadLeaves_of_record|exact Hi|right; exact Ht].
Qed.

(** C10: a field that cannot be set (it is unexported, or lies in an
    unexported nested record) is skipped by the pass: its value is not
    changed, the lookups made are those of fields that can be set only, an
    error comes from a field that can be set only, and a record that starts
    with an unexported field is handled as the rest of its fields, whatever
    the field holds. *)
Theorem unexported_field_skipped env P fs :
  (forall i l,
      nth_error (leaves true fs) i = Some l -> canSet l = false ->
      nth_error (leaves true (recordAfter env fs P)) i = Some l)
  /\ (exists n,
         lookupsMade env fs P
         = firstn n (map (lookupOf P) (filter canSet (leaves true fs))))
  /\ (forall e,
         errorReturned env fs P = Some e ->
         exists l cause,
           In l (leaves true fs) /\ canSet l = true
           /\ e = setFieldError (Name (leafField l))
                                (getEnvVarName (leafField l) P) cause)
  /\ (forall sf v,
         exported sf = false ->
         loadStructFromEnv env (FCons sf v fs) P
         = (FCons sf v (recordAfter env fs P), lookupsMade env fs P,
            errorReturned env fs P)).
Proof.
  pose proof (loadLeaves_of_record env P fs) as E.
  repeat split.
  - intros i l Hi Hc. eapply loadLeaves_frame; [exact E|exact Hi|left; exact Hc].
  - eapply loadLeaves_lookups. exact E.
  - intros e He. rewrite He in E.
    destruct (loadLeaves_error _ _ _ _ _ _ E)
      as (pre & l & post & pre' & logpre & s & cause & Hls & _ & Hc & _ & _
          & _ & _ & ->).
    exists l, cause. repeat split; auto.
    rewrite Hls. apply in_or_app. right. left. reflexivity.
  - intros sf v Ex. rewrite (loadStructFromEnv_unexported _ _ _ _ _ Ex).
    unfold recordAfter, lookupsMade, errorReturned.
    destruct (loadStructFromEnv env fs P) as [[fs' log] err]. reflexivity.
Qed.

(** C5: when the value found for a field is not accepted by its kind, the
    pass returns at once the error whose message is [set field], the
    field's name, [from env] and the variable's name, wrapping the error of
    the parser; the fields before it hold the values set from the
    environment, and it and the fields after it are as they were; the
    failing lookup is the last one made. *)
Theorem failing_field_stops_traversal env P fs pre l post pre' logpre s cause :
  leaves true fs = (pre ++ l :: post)%list ->
  loadLeaves env pre P = (pre', logpre, None) ->
  canSet l = true ->
  LookupEnv env (getEnvVarName (leafField l) P) = Some s ->
  setFieldFromEnv (leafValue l) s = inr cause ->
  errorReturned env fs P
  = Some (Wrapf ("set field " ++ Name (leafField l) ++ " from env "
                 ++ getEnvVarName (leafField l) P)
                cause)
  /\ leaves true (recordAfter env fs P) = (pre' ++ l :: post)%list
  /\ lookupsMade env fs P = (logpre ++ [lookupOf P l])%list
  /\ (forall j m t,
         nth_error pre j = Some m -> canSet m = true ->
         LookupEnv env (getEnvVarName (leafField m) P) = Some t ->
         exists v', setFieldFromEnv (leafValue m) t = inl v'
                    /\ nth_error (leaves true (recordAfter env fs P)) j
                       = Some (mkLeaf true (leafField m) v')).
Proof.
  intros Hls Hpre Hc Hs Hf.
  pose proof (loadLeaves_of_record env P fs) as E.
  rewrite Hls, loadLeaves_app, Hpre in E.
  cbn [loadLeaves] in E. rewrite Hc, Hs, Hf in E. cbn [negb] in E.
  injection E as E1 E2 E3. rewrite <- E1, <- E2, <- E3.
  repeat split.
  intros j m t Hj Hm Ht.
  destruct (loadLeaves_applied _ _ _ _ _ _ _ _ Hpre Hj Hm Ht) as (v' & Hv & Hn).
  exists v'. split; [exact Hv|].
  rewrite nth_error_app1; [exact Hn|].
  apply nth_error_Some. rewrite Hn. discriminate.
Qed.

(** Conversely, every error of the pass arises that way. *)
Lemma loadStructFromEnv_error env P fs e :
  errorReturned env fs P = Some e ->
  exists pre l post pre' logpre s cause,
    leaves true fs = (pre ++ l :: post)%list
    /\ loadLeaves env pre P = (pre', logpre, None)
    /\ canSet l = true
    /\ LookupEnv env (getEnvVarName (leafField l) P) = Some s
    /\ setFieldFromEnv (leafValue l) s = inr cause
    /\ e = setFieldError (Name (leafField l)) (getEnvVarName (leafField l) P)
                         cause.
Proof.
  intros He. pose proof (loadLeaves_of_record env P fs) as E. rewrite He in E.
  destruct (loadLeaves_error _ _ _ _ _ _ E)
    as (pre & l & post & pre' & logpre & s & cause & Hls & Hp & Hc & Hs & Hf
        & _ & _ & ->).
  exists pre, l, post, pre', logpre, s, cause. repeat split; auto.
Qed.

End Override.

Section Values.
Context `{Externals}.

Lemma wrapSigned_small bits n :
  0 < bits ->
  - 2 ^ (bits - 1) <= n < 2 ^ (bits - 1) ->
  wrapSigned bits n = n.
Proof.
  intros Hb Hn. unfold wrapSigned.
  assert (E2 : 2 ^ bits = 2 * 2 ^ (bits - 1)).
  { rewrite <- Z.pow_succ_r by lia. f_equal. lia. }
  rewrite E2. set (h := 2 ^ (bits - 1)) in *.
  destruct (Z.lt_ge_cases n 0) as [Hneg|Hpos].
  - assert (Em : n mod (2 * h) = n + 2 * h).
    { symmetry. apply (Z.mod_unique_pos _ _ (-1)); lia. }
    rewrite Em. destruct (Z.ltb_spec (n + 2 * h) h); lia.
  - rewrite Z.mod_small by lia. destruct (Z.ltb_spec n h); lia.
Qed.

Lemma wrapSigned_in_range k n :
  inIntRange k n = true -> wrapSigned (intBits k) n = n.
Proof.
  unfold inIntRange. intros Hr.
  apply andb_true_iff in Hr. destruct Hr as [Hlo Hhi].
  apply Z.leb_le in Hlo. apply Z.ltb_lt in Hhi.
  apply wrapSigned_small; [destruct k; reflexivity|lia].
Qed.

Lemma wrapUnsigned_in_range k n :
  inUintRange k n = true -> wrapUnsigned (uintBits k) n = n.
Proof.
  unfold inUintRange, wrapUnsigned. intros Hr.
  apply andb_true_iff in Hr. destruct Hr as [Hlo Hhi].
  apply Z.leb_le in Hlo. apply Z.ltb_lt in Hhi.
  apply Z.mod_small. lia.
Qed.

(** A literal that is valid for the kind of a field is accepted by
    [setFieldFromEnv], which stores the value it denotes. *)
Lemma literalValue_set v lit v' :
  literalValue v lit = Some v' -> setFieldFromEnv v lit = inl v'.
Proof.
  destruct v; cbn [literalValue setFieldFromEnv]; try discriminate.
  - destruct (ParseBool lit); [|discriminate]. intros [= <-]. reflexivity.
  - destruct (ParseInt lit) as [z|]; [|discriminate].
    destruct (inIntRange k z) eqn:R; [|discriminate]. intros [= <-].
    unfold SetInt. rewrite (wrapSigned_in_range _ _ R). reflexivity.
  - destruct (ParseUint lit) as [z|]; [|discriminate].
    destruct (inUintRange k z) eqn:R; [|discriminate]. intros [= <-].
    unfold SetUint. rewrite (wrapUnsigned_in_range _ _ R). reflexivity.
  - destruct (ParseFloat64 lit); [|discriminate]. intros [= <-]. reflexivity.
  - intros [= <-]. reflexivity.
Qed.

(** What [setFieldFromEnv] stores depends on the kind of the field and on
    the string only, not on the value held before. *)
Lemma setFieldFromEnv_again v s v' :
  setFieldFromEnv v s = inl v' -> setFieldFromEnv v' s = inl v'.
Proof.
  destruct v; cbn [setFieldFromEnv]; try discriminate.
  - destruct (ParseBool s) eqn:E; [|discriminate]. intros [= <-].
    cbn [setFieldFromEnv]. rewrite E. reflexivity.
  - destruct (ParseInt s) eqn:E; [|discriminate]. intros [= <-].
    cbn [setFieldFromEnv SetInt]. rewrite E. reflexivity.
  - destruct (ParseUint s) eqn:E; [|discriminate]. intros [= <-].
    cbn [setFieldFromEnv SetUint]. rewrite E. reflexivity.
  - destruct (ParseFloat64 s) eqn:E; [|discriminate]. intros [= <-].
    destruct k; cbn [setFieldFromEnv SetFloat]; rewrite E; reflexivity.
  - intros [= <-]. reflexivity.
Qed.

(** C8: when the pass succeeds on a record, running it again on the record
    it left, with the same prefix and environment, succeeds and leaves the
    same record. *)
Theorem override_idempotent env P fs :
  forall fs' log,
    loadStructFromEnv env fs P = (fs', log, None) ->
    loadStructFromEnv env fs' P = (fs', log, None).
Proof.
  induction fs as [|sf v rest IHv IHrest] using Fields_nested_ind;
    intros fs' log E.
  - injection E as <- <-. reflexivity.
  - destruct (exported sf) eqn:Ex; [destruct (isStruct v) eqn:St|].
    + destruct v; try discriminate St.
      rewrite (loadStructFromEnv_struct _ _ _ _ _ Ex) in E.
      destruct (loadStructFromEnv env fs P) as [[inner' log1] [e1|]] eqn:Ei;
        [discriminate E|].
      destruct (loadStructFromEnv env rest P) as [[rest' log2] err2] eqn:Er.
      injection E as <- <- ->.
      rewrite (loadStructFromEnv_struct _ _ _ _ _ Ex).
      rewrite (IHv _ eq_refl _ _ Ei), (IHrest _ _ eq_refl). reflexivity.
    + rewrite (loadStructFromEnv_scalar _ _ _ _ _ Ex St) in E.
      destruct (loadStructFromEnv env rest P) as [[rest' log2] err2] eqn:Er.
      destruct (LookupEnv env (getEnvVarName sf P)) as [s|] eqn:Lk.
      * destruct (setFieldFromEnv v s) as [w|e] eqn:Hset; [|discriminate E].
        injection E as <- <- ->.
        rewrite (loadStructFromEnv_scalar _ _ _ _ _ Ex
                   (setFieldFromEnv_scalar _ _ _ Hset)).
        rewrite Lk, (setFieldFromEnv_again _ _ _ Hset), (IHrest _ _ eq_refl).
        reflexivity.
      * injection E as <- <- ->.
        rewrite (loadStructFromEnv_scalar _ _ _ _ _ Ex St).
        rewrite Lk, (IHrest _ _ eq_refl). reflexivity.
    + rewrite (loadStructFromEnv_unexported _ _ _ _ _ Ex) in E.
      destruct (loadStructFromEnv env rest P) as [[rest' log2] err2] eqn:Er.
      injection E as <- <- ->.
      rewrite (loadStructFromEnv_unexported _ _ _ _ _ Ex).
      rewrite (IHrest _ _ eq_refl). reflexivity.
Qed.

End Values.

Section Names.
Context `{Externals}.

Lemma getEnvVarName_tagged sf P :
  envTag sf <> "" ->
  getEnvVarName sf P
  = if String.eqb P "" then ToUpper (envTag sf)
    else P ++ "_" ++ ToUpper (envTag sf).
Proof.
  intros Ht. unfold getEnvVarName.
  destruct (String.eqb_spec (envTag sf) ""); [contradiction|].
  cbn [negb]. destruct (String.eqb P ""); reflexivity.
Qed.


(** C9: a boolean field accepts exactly the six tokens for true and the six
    tokens for false; every other string is a parse error. *)
Theorem bool_tokens (old : bool) (s : string) :
  (In s trueTokens -> setFieldFromEnv (VBool old) s = inl (VBool true))
  /\ (In s falseTokens -> setFieldFromEnv (VBool old) s = inl (VBool false))
  /\ (~ In s trueTokens -> ~ In s falseTokens ->
      setFieldFromEnv (VBool old) s = inr (NumError "ParseBool" s ErrSyntax)).
Proof.
  repeat split.
  - intros Hin. cbn [In trueTokens] in Hin.
    repeat (destruct Hin as [<- | Hin]; [reflexivity|]). contradiction.
  - intros Hin. cbn [In falseTokens] in Hin.
    repeat (destruct Hin as [<- | Hin]; [reflexivity|]). contradiction.
  - intros Ht Hf. cbn [setFieldFromEnv]. unfold ParseBool.
    cbn [In trueTokens falseTokens] in Ht, Hf.
    repeat match goal with
           | |- context [String.eqb s ?tok] =>
               destruct (String.eqb_spec s tok) as [E|_];
               [symmetry in E; tauto|]
           end.
    reflexivity.
Qed.

End Names.

Section Validation.
Context `{Collaborators}.

Lemma validateConfig_accepts cfg :
  validateConfig cfg = None <-> exists fs, cfg = Some (VPtr (VStruct fs)).
Proof.
  split.
  - destruct cfg as [v|]; [|discriminate].
    destruct v; try discriminate.
    destruct v; try discriminate. eauto.
  - intros [fs ->]. reflexivity.
Qed.

Lemma validateConfig_rejects cfg :
  BadArgument cfg -> exists err, validateConfig cfg = Some err.
Proof.
  intros [|v Hv| |elem He]; cbn [validateConfig]; eauto.
  - destruct v; eauto; cbn [kindOf] in Hv; congruence.
  - destruct elem; eauto. cbn [kindOf] in He. congruence.
Qed.

(** C6: for an argument that is nil, not a pointer, a nil pointer or a
    pointer to something that is not a struct, [Load] returns the
    validation error, having read no file and looked up no variable, and
    leaves the argument as it was. *)
Theorem Load_rejects_bad_argument fsys env cfg paramsActions :
  BadArgument cfg ->
  exists err,
    validateConfig cfg = Some err
    /\ Load fsys env cfg paramsActions
       = (cfg, [], Some (Wrapf "invalid config" err)).
Proof.
  intros Hbad. destruct (validateConfig_rejects _ Hbad) as [err Hv].
  exists err. split; [exact Hv|]. unfold Load. rewrite Hv. reflexivity.
Qed.

End Validation.

Section Prefix.
Context `{Externals}.

Ltac every_byte c :=
  destruct c as [[|] [|] [|] [|] [|] [|] [|] [|]]; vm_compute; reflexivity.

Lemma upperByte_again c : upperByte (upperByte c) = upperByte c.
Proof. every_byte c. Qed.

Lemma upperByte_ascii c :
  (byteOf (upperByte c) <? 128) = (byteOf c <? 128).
Proof. every_byte c. Qed.

Lemma lowerByte_ascii c :
  (byteOf (lowerByte c) <? 128) = (byteOf c <? 128).
Proof. every_byte c. Qed.

Lemma upperByte_lowerByte c : upperByte (lowerByte c) = upperByte c.
Proof. every_byte c. Qed.

Lemma upperByte_underscore c :
  Ascii.eqb (upperByte c) "_" = Ascii.eqb c "_".
Proof. every_byte c. Qed.

Lemma upperByte_not_lower c : isLowerByte c = false -> upperByte c = c.
Proof. unfold upperByte. intros ->. reflexivity. Qed.

Lemma mapBytes_no_lower s : hasLower s = false -> mapBytes upperByte s = s.
Proof.
  induction s as [|c r IH]; cbn [hasLower mapBytes]; [reflexivity|].
  intros E. apply orb_false_iff in E. destruct E as [Ec Er].
  rewrite (upperByte_not_lower _ Ec), (IH Er). reflexivity.
Qed.

(** On an ASCII string [ToUpper] maps every byte to its upper case. *)
Lemma ToUpper_ascii s : isASCII s = true -> ToUpper s = mapBytes upperByte s.
Proof.
  unfold ToUpper. intros ->.
  destruct (hasLower s) eqn:E; [reflexivity|].
  symmetry. apply mapBytes_no_lower. exact E.
Qed.

Lemma isASCII_upper s : isASCII (mapBytes upperByte s) = isASCII s.
Proof.
  induction s as [|c r IH]; cbn [isASCII mapBytes]; [reflexivity|].
  rewrite upperByte_ascii, IH. reflexivity.
Qed.

Lemma mapBytes_upper_again s :
  mapBytes upperByte (mapBytes upperByte s) = mapBytes upperByte s.
Proof.
  induction s as [|c r IH]; cbn [mapBytes]; [reflexivity|].
  rewrite upperByte_again, IH. reflexivity.
Qed.

(** [TrimSuffix] and [HasSuffix] along the string, for the suffixes [_]
    and [__]. *)
Lemma TrimSuffix_1_one c :
  TrimSuffix (String.String c "") "_" = if Ascii.eqb c "_" then "" else String.String c "".
Proof.
  unfold TrimSuffix, HasSuffix. cbn. destruct (Ascii.eqb c "_"); reflexivity.
Qed.

Lemma TrimSuffix_1_more c d r :
  TrimSuffix (String.String c (String.String d r)) "_"
  = String.String c (TrimSuffix (String.String d r) "_").
Proof.
  unfold TrimSuffix, HasSuffix.
  cbn [String.length Nat.leb Nat.sub andb sliceFrom sliceTo].
  rewrite !Nat.sub_0_r.
  destruct (String.eqb (sliceFrom (String.length r) (String.String d r)) "_");
    reflexivity.
Qed.



(** Induction on strings two bytes at a time. *)
Lemma string_ind2 (Q : string -> Prop) :
  Q "" -> (forall c, Q (String.String c "")) ->
  (forall c d r, Q (String.String d r) -> Q (String.String c (String.String d r))) ->
  forall s, Q s.
Proof.
  intros Q0 Q1 Q2. induction s as [|c r IH]; [exact Q0|].
  destruct r as [|d r]; [apply Q1|apply Q2, IH].
Qed.

Lemma TrimSuffix_upper s :
  TrimSuffix (mapBytes upperByte s) "_" = mapBytes upperByte (TrimSuffix s "_").
Proof.
  induction s as [|c|c d r IH] using string_ind2.
  - reflexivity.
  - cbn [mapBytes]. rewrite !TrimSuffix_1_one, upperByte_underscore.
    destruct (Ascii.eqb c "_"); reflexivity.
  - cbn [mapBytes] in *. rewrite !TrimSuffix_1_more. cbn [mapBytes].
    rewrite IH. reflexivity.
Qed.

Lemma isASCII_TrimSuffix s :
  isASCII s = true -> isASCII (TrimSuffix s "_") = true.
Proof.
  induction s as [|c|c d r IH] using string_ind2.
  - reflexivity.
  - rewrite TrimSuffix_1_one. destruct (Ascii.eqb c "_"); auto.
  - rewrite TrimSuffix_1_more. cbn [isASCII] in *. intros E.
    apply andb_true_iff in E. destruct E as [-> E]. cbn [andb]. auto.
Qed.


Lemma normalizedPrefix_ascii p :
  isASCII p = true ->
  normalizedPrefix p = mapBytes upperByte (TrimSuffix p "_").
Proof.
  intros Hp. unfold normalizedPrefix, WithEnvPrefix. cbn [envPrefix].
  rewrite (ToUpper_ascii _ Hp). apply TrimSuffix_upper.
Qed.

Lemma normalizedPrefix_isASCII p :
  isASCII p = true -> isASCII (normalizedPrefix p) = true.
Proof.
  intros Hp. rewrite (normalizedPrefix_ascii _ Hp), isASCII_upper.
  apply isASCII_TrimSuffix. exact Hp.
Qed.

(** The prefixes that reach the traversal are in upper case: the default
    one, and the one [WithEnvPrefix] stores. *)
Lemma defaultPrefix_upper :
  ToUpper (envPrefix defaultParameters) = envPrefix defaultParameters.
Proof. reflexivity. Qed.

Lemma normalizedPrefix_upper p :
  isASCII p = true -> ToUpper (normalizedPrefix p) = normalizedPrefix p.
Proof.
  intros Hp. rewrite (ToUpper_ascii _ (normalizedPrefix_isASCII _ Hp)).
  rewrite (normalizedPrefix_ascii _ Hp). apply mapBytes_upper_again.
Qed.

Lemma sameUpToCase_upper p :
  forall q, sameUpToCase p q = true ->
            mapBytes upperByte p = mapBytes upperByte q
            /\ isASCII q = isASCII p.
Proof.
  induction p as [|a p IH]; intros [|b q]; cbn [sameUpToCase]; try discriminate.
  - split; reflexivity.
  - intros E. apply andb_true_iff in E. destruct E as [Eab Epq].
    apply Ascii.eqb_eq in Eab. destruct (IH _ Epq) as [IH1 IH2].
    cbn [mapBytes isASCII]. rewrite IH1, IH2.
    rewrite <- (upperByte_lowerByte a), <- (upperByte_lowerByte b), Eab.
    rewrite <- (lowerByte_ascii a), <- (lowerByte_ascii b), Eab.
    split; reflexivity.
Qed.



End Prefix.

Section ComputedKey.
Context `{Externals}.

(** A leaf is handled as soon as no leaf before it has a present value
    that its kind rejects, whatever happens after it. *)
Lemma loadLeaves_reached env P pre l post s v' :
  (forall m t,
      In m pre -> canSet m = true ->
      LookupEnv env (getEnvVarName (leafField m) P) = Some t ->
      exists w, setFieldFromEnv (leafValue m) t = inl w) ->
  canSet l = true ->
  LookupEnv env (getEnvVarName (leafField l) P) = Some s ->
  setFieldFromEnv (leafValue l) s = inl v' ->
  nth_error (fst (fst (loadLeaves env (pre ++ l :: post) P)))
            (List.length pre)
  = Some (mkLeaf true (leafField l) v').
Proof.
  intros Hpre Hc Hs Hv.
  induction pre as [|a pre IH]; cbn [app loadLeaves List.length].
  - rewrite Hc, Hs, Hv. cbn [negb].
    destruct (loadLeaves env post P) as [[rest' logr] errr]. reflexivity.
  - assert (IH' : nth_error (fst (fst (loadLeaves env (pre ++ l :: post) P)))
                            (List.length pre)
                  = Some (mkLeaf true (leafField l) v')).
    { apply IH. intros m t Hm. apply Hpre. right. exact Hm. }
    destruct (loadLeaves env (pre ++ l :: post) P) as [[rest' logr] errr].
    cbn [fst] in IH'.
    destruct (canSet a) eqn:Ca; cbn [negb]; [|exact IH'].
    destruct (LookupEnv env (getEnvVarName (leafField a) P)) as [t|] eqn:Lk;
      [|exact IH'].
    destruct (Hpre a t (or_introl eq_refl) Ca Lk) as [w Hw].
    rewrite Hw. exact IH'.
Qed.

(** C2 (amended): for a field that can be set and carries override key K,
    under prefix P, when the variable named P, an underscore and K in upper
    case (K in upper case alone when P is empty) is present with a literal
    valid for the field's kind, and no field before it in the traversal has
    a present value that its kind rejects, the field holds after the pass
    the value the literal denotes, whatever it held before and whether or
    not a later field makes the pass fail. *)
Theorem override_applied_when_reached env P fs pre l post lit v' :
  leaves true fs = (pre ++ l :: post)%list ->
  (forall m t,
      In m pre -> canSet m = true ->
      LookupEnv env (getEnvVarName (leafField m) P) = Some t ->
      exists w, setFieldFromEnv (leafValue m) t = inl w) ->
  canSet l = true ->
  envTag (leafField l) <> "" ->
  LookupEnv env (if String.eqb P "" then ToUpper (envTag (leafField l))
                 else P ++ "_" ++ ToUpper (envTag (leafField l)))
  = Some lit ->
  literalValue (leafValue l) lit = Some v' ->
  nth_error (leaves true (recordAfter env fs P)) (List.length pre)
  = Some (mkLeaf true (leafField l) v').
Proof.
  intros Hls Hpre Hc Ht Hs Hv.
  rewrite <- (getEnvVarName_tagged _ P Ht) in Hs.
  pose proof (loadLeaves_reached env P pre l post lit v' Hpre Hc Hs
                (literalValue_set _ _ _ Hv)) as Hn.
  rewrite <- Hls, loadLeaves_of_record in Hn. exact Hn.
Qed.


End ComputedKey.

Section Decimal.
Context `{Externals}.

Lemma isDigit_range c : isDigit c = true -> 0 <= byteOf c - 48 <= 9.
Proof.
  unfold isDigit. intros E. apply andb_true_iff in E. destruct E as [E1 E2].
  apply Z.leb_le in E1. apply Z.leb_le in E2. lia.
Qed.

Lemma digitOf_digit c : isDigit c = true -> digitOf c = Some (byteOf c - 48).
Proof. unfold digitOf, isDigit. intros ->. reflexivity. Qed.

Lemma digitOf_other c :
  isDigit c = false -> digitOf c = None \/ exists d, digitOf c = Some d /\ 10 <= d.
Proof.
  unfold digitOf, isDigit. intros ->.
  destruct ((97 <=? lower c) && (lower c <=? 122)) eqn:E; [right|left; reflexivity].
  apply andb_true_iff in E. destruct E as [E1 _]. apply Z.leb_le in E1.
  eexists. split; [reflexivity|lia].
Qed.

Lemma decimalFrom_ge cs :
  forall n, allDigits cs = true -> 0 <= n -> n <= decimalFrom n cs.
Proof.
  induction cs as [|c r IH]; intros n Hd Hn; cbn [decimalFrom]; [lia|].
  cbn [allDigits] in Hd. apply andb_true_iff in Hd. destruct Hd as [Hc Hr].
  pose proof (isDigit_range _ Hc).
  specialize (IH (n * 10 + (byteOf c - 48)) Hr). lia.
Qed.

(** The loop of [ParseUint] on a string of digits computes the number
    written, or reports that it does not fit 64 bits. *)
Lemma parseUintLoop_decimal cs :
  forall n,
    allDigits cs = true -> 0 <= n <= maxUint64 ->
    parseUintLoop cs n
    = if decimalFrom n cs <=? maxUint64 then inl (decimalFrom n cs)
      else inr ErrRange.
Proof.
  unfold maxUint64.
  induction cs as [|c r IH]; intros n Hd Hn; cbn [parseUintLoop decimalFrom].
  - destruct (Z.leb_spec n (2 ^ 64 - 1)); [reflexivity|lia].
  - cbn [allDigits] in Hd. apply andb_true_iff in Hd. destruct Hd as [Hc Hr].
    pose proof (isDigit_range _ Hc) as Hdig.
    rewrite (digitOf_digit _ Hc).
    set (d := byteOf c - 48) in *.
    destruct (Z.geb_spec d 10) as [?|_]; [lia|].
    pose proof (decimalFrom_ge r (n * 10 + d) Hr) as Hge.
    unfold maxUint64.
    change (2 ^ 64) with 18446744073709551616 in *.
    change ((18446744073709551616 - 1) / 10 + 1) with 1844674407370955162.
    destruct (Z.geb_spec n 1844674407370955162) as [Hcut|Hcut].
    + destruct (Z.leb_spec (decimalFrom (n * 10 + d) r)
                           (18446744073709551616 - 1)); [lia|reflexivity].
    + rewrite (Z.mod_small (n * 10)) by lia.
      destruct (Z.lt_ge_cases (n * 10 + d) 18446744073709551616) as [Hfit|Hov].
      * rewrite (Z.mod_small (n * 10 + d)) by lia.
        destruct (Z.ltb_spec (n * 10 + d) (n * 10)) as [?|_]; [lia|].
        destruct (Z.gtb_spec (n * 10 + d) (18446744073709551616 - 1))
          as [?|_]; [lia|].
        cbn [orb]. apply IH; [exact Hr|lia].
      * assert (Em : (n * 10 + d) mod 18446744073709551616
                     = n * 10 + d - 18446744073709551616).
        { symmetry. apply (Z.mod_unique_pos _ _ 1); lia. }
        rewrite Em.
        destruct (Z.ltb_spec (n * 10 + d - 18446744073709551616) (n * 10))
          as [_|?]; [|lia].
        cbn [orb].
        destruct (Z.leb_spec (decimalFrom (n * 10 + d) r)
                             (18446744073709551616 - 1)); [lia|reflexivity].
Qed.

Lemma parseUintLoop_other cs :
  allDigits cs = false -> forall n, exists e, parseUintLoop cs n = inr e.
Proof.
  induction cs as [|c r IH]; intros Hd n; [discriminate Hd|].
  cbn [allDigits] in Hd. cbn [parseUintLoop].
  destruct (isDigit c) eqn:Hc.
  - cbn [andb] in Hd. rewrite (digitOf_digit _ Hc).
    destruct (byteOf c - 48 >=? 10); [eauto|].
    destruct (n >=? maxUint64 / 10 + 1); [eauto|].
    match goal with |- context [if ?b then _ else _] => destruct b end; eauto.
  - destruct (digitOf_other _ Hc) as [->|(d & -> & Hd10)]; [eauto|].
    destruct (Z.geb_spec d 10); [eauto|lia].
Qed.

(** [ParseUint] accepts exactly the non-empty strings of digits that write
    a number below 2^64, and returns that number. *)
Lemma ParseUint_decimal s n :
  ParseUint s = inl n
  <-> s <> "" /\ allDigits s = true /\ decimalValue s = n /\ n <= maxUint64.
Proof.
  unfold decimalValue. split.
  - intros E. destruct s as [|c r]; [discriminate E|].
    split; [discriminate|]. cbn [ParseUint] in E.
    destruct (allDigits (String.String c r)) eqn:Hd.
    + rewrite (parseUintLoop_decimal _ 0 Hd) in E by (unfold maxUint64; lia).
      destruct (Z.leb_spec (decimalFrom 0 (String.String c r)) maxUint64);
        [|discriminate E].
      injection E as <-. auto.
    + destruct (parseUintLoop_other _ Hd 0) as [e He]. congruence.
  - intros (Hs & Hd & <- & Hn). destruct s as [|c r]; [contradiction|].
    cbn [ParseUint].
    rewrite (parseUintLoop_decimal _ 0 Hd) by (unfold maxUint64; lia).
    apply Z.leb_le in Hn. rewrite Hn. reflexivity.
Qed.

(** [ParseInt] on an unsigned string of digits: the number written, when
    it is below 2^63. *)
Lemma ParseInt_decimal s :
  s <> "" -> allDigits s = true ->
  ParseInt s = if decimalValue s <? 2 ^ 63 then inl (decimalValue s)
               else inr ErrRange.
Proof.
  intros Hs Hd. destruct s as [|c r]; [contradiction|].
  assert (Hc : isDigit c = true).
  { cbn [allDigits] in Hd. apply andb_true_iff in Hd. tauto. }
  assert (Hplus : Ascii.eqb c "+" = false).
  { destruct (Ascii.eqb_spec c "+") as [->|]; [discriminate Hc|reflexivity]. }
  assert (Hminus : Ascii.eqb c "-" = false).
  { destruct (Ascii.eqb_spec c "-") as [->|]; [discriminate Hc|reflexivity]. }
  unfold ParseInt. rewrite Hplus, Hminus. cbn [orb negb andb].
  cbn [ParseUint].
  rewrite (parseUintLoop_decimal _ 0 Hd) by (unfold maxUint64; lia).
  fold (decimalValue (String.String c r)).
  pose proof (decimalFrom_ge _ 0 Hd ltac:(lia)) as Hge.
  fold (decimalValue (String.String c r)) in Hge.
  set (v := decimalValue (String.String c r)) in *.
  unfold maxUint64.
  change (2 ^ 64) with 18446744073709551616.
  change (2 ^ 63) with 9223372036854775808.
  destruct (Z.leb_spec v (18446744073709551616 - 1));
    destruct (Z.ltb_spec v 9223372036854775808); try lia; try reflexivity.
  - destruct (Z.geb_spec v 9223372036854775808); [lia|reflexivity].
  - destruct (Z.geb_spec v 9223372036854775808); [reflexivity|lia].
Qed.

(** A number that [ParseInt] accepts is stored in a field of any signed
    kind without a check against the field's width. *)
Lemma setFieldFromEnv_int_unchecked k old s :
  s <> "" -> allDigits s = true -> decimalValue s < 2 ^ 63 ->
  setFieldFromEnv (VInt k old) s
  = inl (VInt k (wrapSigned (intBits k) (decimalValue s))).
Proof.
  intros Hs Hd Hv. cbn [setFieldFromEnv].
  rewrite (ParseInt_decimal _ Hs Hd).
  apply Z.ltb_lt in Hv. rewrite Hv. reflexivity.
Qed.

End Decimal.

Section PassProperties.
Context `{Externals}.

Lemma loadStructFromEnv_rerun env P fs :
  forall fs' log r,
    loadStructFromEnv env fs P = (fs', log, r) ->
    loadStructFromEnv env fs' P = (fs', log, r).
Proof.
  induction fs as [|sf v rest IHv IHrest] using Fields_nested_ind;
    intros fs' log r E.
  - injection E as <- <- <-. reflexivity.
  - destruct (exported sf) eqn:Ex; [destruct (isStruct v) eqn:St|].
    + destruct v; try discriminate St.
      rewrite (loadStructFromEnv_struct _ _ _ _ _ Ex) in E.
      destruct (loadStructFromEnv env fs P) as [[inner' log1] [e1|]] eqn:Ei.
      * injection E as <- <- <-.
        rewrite (loadStructFromEnv_struct _ _ _ _ _ Ex).
        rewrite (IHv _ eq_refl _ _ _ Ei). reflexivity.
      * destruct (loadStructFromEnv env rest P) as [[rest' log2] err2] eqn:Er.
        injection E as <- <- <-.
        rewrite (loadStructFromEnv_struct _ _ _ _ _ Ex).
        rewrite (IHv _ eq_refl _ _ _ Ei), (IHrest _ _ _ eq_refl). reflexivity.
    + rewrite (loadStructFromEnv_scalar _ _ _ _ _ Ex St) in E.
      destruct (loadStructFromEnv env rest P) as [[rest' log2] err2] eqn:Er.
      destruct (LookupEnv env (getEnvVarName sf P)) as [s|] eqn:Lk.
      * destruct (setFieldFromEnv v s) as [w|e] eqn:Hset.
        -- injection E as <- <- <-.
           rewrite (loadStructFromEnv_scalar _ _ _ _ _ Ex
                      (setFieldFromEnv_scalar _ _ _ Hset)).
           rewrite Lk, (setFieldFromEnv_again _ _ _ Hset), (IHrest _ _ _ eq_refl).
           reflexivity.
        -- injection E as <- <- <-.
           rewrite (loadStructFromEnv_scalar _ _ _ _ _ Ex St), Lk, Hset.
           reflexivity.
      * injection E as <- <- <-.
        rewrite (loadStructFromEnv_scalar _ _ _ _ _ Ex St).
        rewrite Lk, (IHrest _ _ _ eq_refl). reflexivity.
    + rewrite (loadStructFromEnv_unexported _ _ _ _ _ Ex) in E.
      destruct (loadStructFromEnv env rest P) as [[rest' log2] err2] eqn:Er.
      injection E as <- <- <-.
      rewrite (loadStructFromEnv_unexported _ _ _ _ _ Ex).
      rewrite (IHrest _ _ _ eq_refl). reflexivity.
Qed.

(** X1: running the pass again on the record a pass has left, with the
    same prefix and environment, makes the same lookups, returns the same
    result - the same error when the first pass failed - and changes
    nothing more. *)
Theorem pass_rerun_changes_nothing env P fs :
  loadStructFromEnv env (recordAfter env fs P) P
  = (recordAfter env fs P, lookupsMade env fs P, errorReturned env fs P).
Proof.
  unfold recordAfter, lookupsMade, errorReturned.
  destruct (loadStructFromEnv env fs P) as [[fs' log] r] eqn:E.
  cbn [fst snd]. exact (loadStructFromEnv_rerun _ _ _ _ _ _ E).
Qed.

Lemma leaves_cons_rest b sf v rest l :
  In l (leaves b rest) -> In l (leaves b (FCons sf v rest)).
Proof.
  intros Hl. cbn [leaves].
  destruct v; try (right; exact Hl). apply in_or_app. right. exact Hl.
Qed.

Lemma leaves_cons_inner sf inner rest l :
  exported sf = true ->
  In l (leaves true inner) -> In l (leaves true (FCons sf (VStruct inner) rest)).
Proof.
  intros Ex Hl. cbn [leaves]. rewrite Ex. apply in_or_app. left. exact Hl.
Qed.

Lemma leaves_cons_head sf v rest :
  exported sf = true -> isStruct v = false ->
  In (mkLeaf true sf v) (leaves true (FCons sf v rest)).
Proof.
  intros Ex St. rewrite (leaves_scalar _ _ _ _ St), Ex. left. reflexivity.
Qed.

(** X2: the pass reads the environment through the computed names of the
    fields that can be set only: two environments that agree on those names
    give the same record, the same lookups and the same result. *)
Theorem pass_depends_on_computed_names env1 env2 P fs :
  (forall l, In l (leaves true fs) -> canSet l = true ->
             LookupEnv env1 (getEnvVarName (leafField l) P)
             = LookupEnv env2 (getEnvVarName (leafField l) P)) ->
  loadStructFromEnv env1 fs P = loadStructFromEnv env2 fs P.
Proof.
  induction fs as [|sf v rest IHv IHrest] using Fields_nested_ind;
    intros Hagree; [reflexivity|].
  assert (Hrest : loadStructFromEnv env1 rest P = loadStructFromEnv env2 rest P).
  { apply IHrest. intros l Hl. apply Hagree, leaves_cons_rest, Hl. }
  destruct (exported sf) eqn:Ex; [destruct (isStruct v) eqn:St|].
  - destruct v; try discriminate St.
    rewrite !(loadStructFromEnv_struct _ _ _ _ _ Ex), Hrest.
    rewrite (IHv _ eq_refl); [reflexivity|].
    intros l Hl. apply Hagree, leaves_cons_inner; assumption.
  - rewrite !(loadStructFromEnv_scalar _ _ _ _ _ Ex St), Hrest.
    pose proof (Hagree _ (leaves_cons_head _ _ rest Ex St) eq_refl) as Hh.
    cbn [leafField] in Hh. rewrite Hh. reflexivity.
  - rewrite !(loadStructFromEnv_unexported _ _ _ _ _ Ex), Hrest. reflexivity.
Qed.

Lemma filter_unsettable (ls : list Leaf) :
  Forall (fun l => canSet l = false) ls -> filter canSet ls = [].
Proof.
  induction 1 as [|l ls Hl _ IH]; cbn [filter]; [reflexivity|].
  rewrite Hl. exact IH.
Qed.

(** X3: when no computed name of a field that can be set is present in the
    environment, the pass succeeds and leaves the whole record as it was,
    having looked up each of those names once, in the order of the
    fields. *)
Theorem pass_without_variables env P fs :
  (forall l, In l (leaves true fs) -> canSet l = true ->
             LookupEnv env (getEnvVarName (leafField l) P) = None) ->
  loadStructFromEnv env fs P
  = (fs, map (lookupOf P) (filter canSet (leaves true fs)), None).
Proof.
  induction fs as [|sf v rest IHv IHrest] using Fields_nested_ind;
    intros Hnone; [reflexivity|].
  assert (Hrest : loadStructFromEnv env rest P
                  = (rest, map (lookupOf P) (filter canSet (leaves true rest)),
                     None)).
  { apply IHrest. intros l Hl. apply Hnone, leaves_cons_rest, Hl. }
  destruct (exported sf) eqn:Ex; [destruct (isStruct v) eqn:St|].
  - destruct v; try discriminate St.
    rewrite (loadStructFromEnv_struct _ _ _ _ _ Ex), Hrest.
    rewrite (IHv _ eq_refl)
      by (intros l Hl; apply Hnone, leaves_cons_inner; assumption).
    cbn [leaves]. rewrite Ex. cbn [andb]. rewrite filter_app, map_app.
    reflexivity.
  - rewrite (loadStructFromEnv_scalar _ _ _ _ _ Ex St), Hrest.
    pose proof (Hnone _ (leaves_cons_head _ _ rest Ex St) eq_refl) as Hh.
    cbn [leafField] in Hh. rewrite Hh.
    rewrite (leaves_scalar _ _ _ _ St), Ex. reflexivity.
  - rewrite (loadStructFromEnv_unexported _ _ _ _ _ Ex), Hrest.
    destruct (isStruct v) eqn:St.
    + destruct v; try discriminate St. cbn [leaves]. rewrite Ex. cbn [andb].
      rewrite filter_app, (filter_unsettable _ (leaves_unsettable fs)).
      reflexivity.
    + rewrite (leaves_scalar _ _ _ _ St), Ex. reflexivity.
Qed.

Lemma loadLeaves_lookups_success env P ls :
  forall ls' log,
    loadLeaves env ls P = (ls', log, None) ->
    log = map (lookupOf P) (filter canSet ls).
Proof.
  induction ls as [|a ls IH]; intros ls' log E; cbn [loadLeaves] in E.
  - injection E as <- <-. reflexivity.
  - destruct (loadLeaves env ls P) as [[rest' logr] errr] eqn:Er.
    cbn [filter]. destruct (canSet a) eqn:Ca; cbn [negb] in E.
    + destruct (LookupEnv env (getEnvVarName (leafField a) P)) as [s|].
      * destruct (setFieldFromEnv (leafValue a) s); [|discriminate E].
        injection E as <- <- ->. cbn [map]. rewrite <- (IH _ _ eq_refl).
        reflexivity.
      * injection E as <- <- ->. cbn [map]. rewrite <- (IH _ _ eq_refl).
        reflexivity.
    + injection E as <- <- ->. apply (IH _ _ eq_refl).
Qed.

(** X4: a pass that returns no error has made exactly one lookup for each
    field that can be set, in the order of the fields (nested records opened
    in place), and none for the others. *)
Theorem successful_pass_lookups env P fs :
  errorReturned env fs P = None ->
  lookupsMade env fs P = map (lookupOf P) (filter canSet (leaves true fs)).
Proof.
  intros He. pose proof (loadLeaves_of_record env P fs) as E. rewrite He in E.
  exact (loadLeaves_lookups_success _ _ _ _ _ E).
Qed.

Lemma loadLeaves_frame_rejected env P ls :
  forall ls' log err i l,
    loadLeaves env ls P = (ls', log, err) ->
    nth_error ls i = Some l ->
    (forall s, exists e, setFieldFromEnv (leafValue l) s = inr e) ->
    nth_error ls' i = Some l.
Proof.
  induction ls as [|a ls IH]; intros ls' log err i l E Hi Hl.
  - destruct i; discriminate Hi.
  - cbn [loadLeaves] in E.
    destruct (loadLeaves env ls P) as [[rest' logr] errr] eqn:Er.
    assert (Hrest : forall j, nth_error ls j = Some l -> nth_error rest' j = Some l)
      by (intros j Hj; eapply IH; eauto).
    destruct (canSet a) eqn:Ca; cbn [negb] in E.
    + destruct (LookupEnv env (getEnvVarName (leafField a) P)) as [s|] eqn:Lk.
      * destruct i as [|j]; cbn [nth_error] in Hi.
        { injection Hi as ->. destruct (Hl s) as [e He]. rewrite He in E.
          injection E as <- <- <-. reflexivity. }
        destruct (setFieldFromEnv (leafValue a) s); injection E as <- <- <-;
          cbn [nth_error]; auto.
      * injection E as <- <- <-. destruct i as [|j]; cbn [nth_error] in *; auto.
    + injection E as <- <- <-. destruct i as [|j]; cbn [nth_error] in *; auto.
Qed.

Lemma setFieldFromEnv_unsupported v s :
  supported v = false ->
  setFieldFromEnv v s = inr (Errorf ("unsupported type: " ++ kindName (kindOf v))).
Proof. destruct v; intros E; try discriminate E; reflexivity. Qed.

(** X5: a field of a kind [setFieldFromEnv] has no case for (pointer,
    slice, map, interface, ...) is never changed by the pass, tagged or
    not; when it can be set and its variable is present, the pass does not
    succeed. *)
Theorem unsupported_field_never_set env P fs i l :
  nth_error (leaves true fs) i = Some l ->
  supported (leafValue l) = false ->
  nth_error (leaves true (recordAfter env fs P)) i = Some l
  /\ (canSet l = true ->
      LookupEnv env (getEnvVarName (leafField l) P) <> None ->
      errorReturned env fs P <> None).
Proof.
  intros Hi Hs. pose proof (loadLeaves_of_record env P fs) as E. split.
  - eapply loadLeaves_frame_rejected; [exact E|exact Hi|].
    intros s. eexists. apply setFieldFromEnv_unsupported. exact Hs.
  - intros Hc Hk He. rewrite He in E.
    destruct (LookupEnv env (getEnvVarName (leafField l) P)) as [s|] eqn:Lk;
      [|contradiction].
    destruct (loadLeaves_applied _ _ _ _ _ _ _ _ E Hi Hc Lk) as (v' & Hv & _).
    rewrite (setFieldFromEnv_unsupported _ s Hs) in Hv. discriminate Hv.
Qed.

(** What is stored, or the error, depends on the kind of the field and on
    the string only. *)
Lemma setFieldFromEnv_kind_only v1 v2 s :
  kindOf v1 = kindOf v2 -> setFieldFromEnv v1 s = setFieldFromEnv v2 s.
Proof.
  destruct v1; destruct v2; cbn [kindOf]; intros K;
    repeat match goal with
           | k : intKind |- _ => destruct k
           | k : uintKind |- _ => destruct k
           | k : floatKind |- _ => destruct k
           | k : opaqueKind |- _ => destruct k
           end;
    try discriminate K; reflexivity.
Qed.

(** X6: when the pass succeeds, two fields that can be set, have the same
    kind and compute the same name (the same override key up to case,
    wherever they are nested) hold the same value after it, when the
    variable is present. *)
Theorem colliding_keys_share_value env P fs i j l1 l2 s :
  errorReturned env fs P = None ->
  nth_error (leaves true fs) i = Some l1 ->
  nth_error (leaves true fs) j = Some l2 ->
  canSet l1 = true -> canSet l2 = true ->
  getEnvVarName (leafField l1) P = getEnvVarName (leafField l2) P ->
  kindOf (leafValue l1) = kindOf (leafValue l2) ->
  LookupEnv env (getEnvVarName (leafField l1) P) = Some s ->
  exists v,
    nth_error (leaves true (recordAfter env fs P)) i
    = Some (mkLeaf true (leafField l1) v)
    /\ nth_error (leaves true (recordAfter env fs P)) j
       = Some (mkLeaf true (leafField l2) v).
Proof.
  intros He Hi Hj Hc1 Hc2 Hn Hk Hs.
  pose proof (loadLeaves_of_record env P fs) as E. rewrite He in E.
  destruct (loadLeaves_applied _ _ _ _ _ _ _ _ E Hi Hc1 Hs) as (v1 & Hv1 & Hn1).
  rewrite Hn in Hs.
  destruct (loadLeaves_applied _ _ _ _ _ _ _ _ E Hj Hc2 Hs) as (v2 & Hv2 & Hn2).
  rewrite (setFieldFromEnv_kind_only _ _ s Hk), Hv2 in Hv1.
  injection Hv1 as ->. exists v1. split; assumption.
Qed.

Lemma sameType_inv sf v rest b :
  sameType (FCons sf v rest) b ->
  exists v' rest',
    b = FCons sf v' rest' /\ sameType rest rest'
    /\ ((exists inner inner',
            v = VStruct inner /\ v' = VStruct inner' /\ sameType inner inner')
        \/ (isStruct v = false /\ isStruct v' = false /\ kindOf v = kindOf v')).
Proof.
  destruct b as [|sf' v' rest']; cbn [sameType]; [contradiction|].
  intros (<- & Hv & Hr). exists v', rest'. repeat split; [exact Hr|].
  destruct v; destruct v'; try contradiction;
    try (right; repeat split; exact Hv);
    try (left; eauto; fail);
    exfalso; cbn [kindOf] in Hv;
    repeat match goal with
           | k : intKind |- _ => destruct k
           | k : uintKind |- _ => destruct k
           | k : floatKind |- _ => destruct k
           | k : opaqueKind |- _ => destruct k
           end;
    discriminate Hv.
Qed.

(** X7: the lookups the pass makes and the error it returns depend on the
    type of the record and on the environment, not on the values the
    fields hold before it (from the file or zero). *)
Theorem pass_result_independent_of_values env P fs1 :
  forall fs2,
    sameType fs1 fs2 ->
    lookupsMade env fs1 P = lookupsMade env fs2 P
    /\ errorReturned env fs1 P = errorReturned env fs2 P.
Proof.
  unfold lookupsMade, errorReturned.
  induction fs1 as [|sf v rest IHv IHrest] using Fields_nested_ind;
    intros fs2 Hs.
  - destruct fs2; [split; reflexivity|contradiction].
  - destruct (sameType_inv _ _ _ _ Hs) as (v' & rest' & -> & Hr & Hv).
    destruct (IHrest _ Hr) as [Hl He].
    destruct (exported sf) eqn:Ex.
    + destruct Hv as [(inner & inner' & -> & -> & Hi)|(St & St' & K)].
      * rewrite !(loadStructFromEnv_struct _ _ _ _ _ Ex).
        destruct (IHv _ eq_refl _ Hi) as [Hli Hei].
        destruct (loadStructFromEnv env inner P) as [[i1 li1] ei1].
        destruct (loadStructFromEnv env inner' P) as [[i2 li2] ei2].
        cbn [fst snd] in Hli, Hei. subst li2 ei2.
        destruct (loadStructFromEnv env rest P) as [[r1 lg1] e1].
        destruct (loadStructFromEnv env rest' P) as [[r2 lg2] e2].
        cbn [fst snd] in Hl, He. subst lg2 e2.
        destruct ei1; split; reflexivity.
      * rewrite (loadStructFromEnv_scalar _ _ _ _ _ Ex St).
        rewrite (loadStructFromEnv_scalar _ _ _ _ _ Ex St').
        destruct (loadStructFromEnv env rest P) as [[r1 lg1] e1].
        destruct (loadStructFromEnv env rest' P) as [[r2 lg2] e2].
        cbn [fst snd] in Hl, He. subst lg2 e2.
        destruct (LookupEnv env (getEnvVarName sf P)) as [s|];
          [|split; reflexivity].
        rewrite (setFieldFromEnv_kind_only _ _ s K).
        destruct (setFieldFromEnv v' s); split; reflexivity.
    + rewrite !(loadStructFromEnv_unexported _ _ _ _ _ Ex).
      destruct (loadStructFromEnv env rest P) as [[r1 lg1] e1].
      destruct (loadStructFromEnv env rest' P) as [[r2 lg2] e2].
      cbn [fst snd] in Hl, He. subst lg2 e2. split; reflexivity.
Qed.

(** X8: the pass keeps the type of the record: the record it leaves has the
    same fields in the same order and nesting, every field keeps its kind,
    its description and whether it can be set; only values of scalar fields
    change. *)
Theorem pass_keeps_record_type env P fs :
  sameType fs (recordAfter env fs P)
  /\ map (fun l => (canSet l, leafField l, kindOf (leafValue l)))
         (leaves true (recordAfter env fs P))
     = map (fun l => (canSet l, leafField l, kindOf (leafValue l)))
           (leaves true fs).
Proof.
  split; [apply loadStructFromEnv_sameType|].
  pose proof (loadLeaves_of_record env P fs) as E.
  generalize dependent (leaves true (recordAfter env fs P)).
  generalize (lookupsMade env fs P) (errorReturned env fs P).
  induction (leaves true fs) as [|a ls IH]; intros log err ls' E;
    cbn [loadLeaves] in E.
  - injection E as <- <- <-. reflexivity.
  - destruct (loadLeaves env ls P) as [[rest' logr] errr] eqn:Er.
    specialize (IH _ _ _ eq_refl).
    destruct (canSet a) eqn:Ca; cbn [negb] in E.
    + destruct (LookupEnv env (getEnvVarName (leafField a) P)) as [s|].
      * destruct (setFieldFromEnv (leafValue a) s) eqn:Hset;
          injection E as <- <- <-; cbn [map canSet leafField leafValue];
          rewrite ?IH, ?Ca, ?(setFieldFromEnv_kind _ _ _ Hset); reflexivity.
      * injection E as <- <- <-. cbn [map]. rewrite IH. reflexivity.
    + injection E as <- <- <-. cbn [map]. rewrite IH. reflexivity.
Qed.

End PassProperties.

Section LoadProperties.
Context `{Collaborators}.

Lemma loadFromYamlPaths_missing fsys cfg nm pre rest :
  (forall path, In path pre ->
                exists e, fsys (filepathJoin path (nm ++ ".yaml")) = ReadNotExist e) ->
  loadFromYamlPaths fsys cfg nm (pre ++ rest)
  = let '(cfg', log, err) := loadFromYamlPaths fsys cfg nm rest in
    (cfg',
     (map (fun path => EvReadFile (filepathJoin path (nm ++ ".yaml"))) pre
      ++ log)%list,
     err).
Proof.
  induction pre as [|path pre IH]; intros Hm; cbn [app map loadFromYamlPaths].
  - destruct (loadFromYamlPaths fsys cfg nm rest) as [[c l] e]. reflexivity.
  - destruct (Hm path (or_introl eq_refl)) as [e ->].
    rewrite IH by (intros q Hq; apply Hm; right; exact Hq).
    destruct (loadFromYamlPaths fsys cfg nm rest) as [[c l] e']. reflexivity.
Qed.

Lemma loadFromYaml_no_file_aux fsys cfg p :
  (forall path, In path (paths p) ->
                exists e, fsys (configFile p path) = ReadNotExist e) ->
  loadFromYaml fsys cfg p
  = (cfg, map (fun path => EvReadFile (configFile p path)) (paths p), None).
Proof.
  intros Hm. unfold loadFromYaml.
  rewrite <- (app_nil_r (paths p)) at 1.
  rewrite (loadFromYamlPaths_missing _ _ _ _ [] Hm).
  cbn [loadFromYamlPaths]. rewrite app_nil_r. reflexivity.
Qed.

(** X9: when the file is missing under every search path, [loadFromYaml]
    returns no error and leaves the record as it was, having tried every
    path once, in the order given. *)
Theorem loadFromYaml_no_file fsys cfg p :
  (forall path, In path (paths p) ->
                exists e, fsys (configFile p path) = ReadNotExist e) ->
  loadFromYaml fsys cfg p
  = (cfg, map (fun path => EvReadFile (configFile p path)) (paths p), None).
Proof. exact (loadFromYaml_no_file_aux fsys cfg p). Qed.

(** X10: the first search path under which the file exists decides: the
    file is decoded into the record, the paths after it are not read, and a
    decoding error is returned with the file's name. *)
Theorem loadFromYaml_first_found fsys cfg p pre path post data :
  paths p = (pre ++ path :: post)%list ->
  (forall q, In q pre -> exists e, fsys (configFile p q) = ReadNotExist e) ->
  fsys (configFile p path) = ReadData data ->
  loadFromYaml fsys cfg p
  = (fst (yamlUnmarshal data cfg),
     (map (fun q => EvReadFile (configFile p q)) pre
      ++ [EvReadFile (configFile p path)])%list,
     match snd (yamlUnmarshal data cfg) with
     | Some err => Some (Wrapf ("unparse yaml " ++ configFile p path) err)
     | None => None
     end).
Proof.
  intros Hp Hm Hd. unfold loadFromYaml. rewrite Hp.
  rewrite (loadFromYamlPaths_missing _ _ _ _ _ Hm).
  cbn [loadFromYamlPaths]. unfold configFile in Hd. rewrite Hd.
  destruct (yamlUnmarshal data cfg) as [cfg' [e|]]; reflexivity.
Qed.

(** X11: a file that exists but cannot be read stops the search: the error
    is returned with the file's name, the record is as it was and the paths
    after it are not read. *)
Theorem loadFromYaml_unreadable fsys cfg p pre path post err :
  paths p = (pre ++ path :: post)%list ->
  (forall q, In q pre -> exists e, fsys (configFile p q) = ReadNotExist e) ->
  fsys (configFile p path) = ReadError err ->
  loadFromYaml fsys cfg p
  = (cfg,
     (map (fun q => EvReadFile (configFile p q)) pre
      ++ [EvReadFile (configFile p path)])%list,
     Some (Wrapf ("unread file " ++ configFile p path) err)).
Proof.
  intros Hp Hm Hd. unfold loadFromYaml. rewrite Hp.
  rewrite (loadFromYamlPaths_missing _ _ _ _ _ Hm).
  cbn [loadFromYamlPaths]. unfold configFile in Hd. rewrite Hd. reflexivity.
Qed.

Lemma loadFromYamlPaths_reads fsys cfg nm ps :
  forallb isRead (snd (fst (loadFromYamlPaths fsys cfg nm ps))) = true.
Proof.
  induction ps as [|path ps IH]; cbn [loadFromYamlPaths]; [reflexivity|].
  destruct (fsys (filepathJoin path (nm ++ ".yaml"))) as [data|e|e].
  - destruct (yamlUnmarshal data cfg) as [cfg' [e|]]; reflexivity.
  - destruct (loadFromYamlPaths fsys cfg nm ps) as [[c l] e']. exact IH.
  - reflexivity.
Qed.

Lemma loadLeaves_only_lookups env P ls :
  forallb isLookup (snd (fst (loadLeaves env ls P))) = true.
Proof.
  induction ls as [|a ls IH]; cbn [loadLeaves]; [reflexivity|].
  destruct (loadLeaves env ls P) as [[rest' logr] errr].
  destruct (canSet a); cbn [negb]; [|exact IH].
  destruct (LookupEnv env (getEnvVarName (leafField a) P)) as [s|];
    [destruct (setFieldFromEnv (leafValue a) s)|]; cbn [fst snd forallb isLookup];
    try exact IH; reflexivity.
Qed.

Lemma loadStructFromEnv_only_lookups env P fs :
  forallb isLookup (lookupsMade env fs P) = true.
Proof.
  pose proof (loadLeaves_only_lookups env P (leaves true fs)) as E.
  rewrite loadLeaves_of_record in E. exact E.
Qed.

Lemma forallb_isRead_no_lookup log k :
  forallb isRead log = true -> ~ In (EvLookupEnv k) log.
Proof.
  intros Hr Hin. rewrite forallb_forall in Hr.
  specialize (Hr _ Hin). discriminate Hr.
Qed.

(** X12: every error [Load] returns is one of three: the validation error,
    returned with nothing read or looked up and the argument as it was; a
    file error, returned before any environment lookup; or an error of the
    environment pass. *)
Theorem Load_error_taxonomy fsys env cfg paramsActions cfg' log e :
  Load fsys env cfg paramsActions = (cfg', log, Some e) ->
  (exists cause, e = Wrapf "invalid config" cause /\ log = [] /\ cfg' = cfg)
  \/ (exists cause, e = Wrapf "unload config file" cause
                    /\ forall k, ~ In (EvLookupEnv k) log)
  \/ (exists cause, e = Wrapf "load env" cause).
Proof.
  unfold Load.
  destruct (validateConfig cfg) as [err|] eqn:Hv.
  - intros [= <- <- <-]. left. eauto.
  - apply validateConfig_accepts in Hv. destruct Hv as [fs ->].
    pose proof (loadFromYamlPaths_reads fsys fs
                  (name (resolveParameters paramsActions))
                  (paths (resolveParameters paramsActions))) as Hr.
    unfold loadFromYaml. fold (resolveParameters paramsActions).
    destruct (loadFromYamlPaths _ _ _ _) as [[fs1 log1] [e1|]].
    + intros [= <- <- <-]. right. left. eexists. split; [reflexivity|].
      intros k. apply forallb_isRead_no_lookup. exact Hr.
    + destruct (loadFromEnv env fs1 _) as [[fs2 log2] [e2|]];
        intros [= <- <- <-]. right. right. eauto.
Qed.

(** X13: in every call of [Load] the file reads come before the
    environment lookups: the environment is consulted only after the search
    for the file has ended. *)
Theorem Load_reads_before_lookups fsys env cfg paramsActions :
  exists reads lookups,
    snd (fst (Load fsys env cfg paramsActions)) = (reads ++ lookups)%list
    /\ forallb isRead reads = true
    /\ forallb isLookup lookups = true.
Proof.
  unfold Load.
  destruct (validateConfig cfg) as [err|] eqn:Hv.
  - exists [], []. repeat split.
  - apply validateConfig_accepts in Hv. destruct Hv as [fs ->].
    pose proof (loadFromYamlPaths_reads fsys fs
                  (name (resolveParameters paramsActions))
                  (paths (resolveParameters paramsActions))) as Hr.
    unfold loadFromYaml, loadFromEnv. fold (resolveParameters paramsActions).
    destruct (loadFromYamlPaths _ _ _ _) as [[fs1 log1] [e1|]].
    + exists log1, []. rewrite app_nil_r. repeat split. exact Hr.
    + pose proof (loadStructFromEnv_only_lookups env
                    (envPrefix (resolveParameters paramsActions)) fs1) as Hl.
      unfold lookupsMade in Hl.
      destruct (loadStructFromEnv env fs1 _) as [[fs2 log2] e2].
      exists log1, log2. repeat split; assumption.
Qed.

(** X14: when no configuration file is found, [Load] is the environment
    pass run on the caller's record under the resolved prefix: the values
    the record held stay where no variable overrides them. *)
Theorem Load_without_file fsys env fs paramsActions :
  let p := resolveParameters paramsActions in
  (forall path, In path (paths p) ->
                exists e, fsys (configFile p path) = ReadNotExist e) ->
  Load fsys env (Some (VPtr (VStruct fs))) paramsActions
  = (Some (VPtr (VStruct (recordAfter env fs (envPrefix p)))),
     (map (fun path => EvReadFile (configFile p path)) (paths p)
      ++ lookupsMade env fs (envPrefix p))%list,
     match errorReturned env fs (envPrefix p) with
     | Some err => Some (Wrapf "load env" err)
     | None => None
     end).
Proof.
  intros p Hm. unfold Load. cbn [validateConfig].
  fold (resolveParameters paramsActions). fold p.
  rewrite (loadFromYaml_no_file_aux fsys fs p Hm).
  unfold loadFromEnv, recordAfter, lookupsMade, errorReturned.
  destruct (loadStructFromEnv env fs (envPrefix p)) as [[fs2 log2] e2].
  reflexivity.
Qed.

(** X15: the environment dominates the file: in the record a successful
    [Load] leaves, every field that can be set and whose variable holds a
    literal valid for its kind holds the value of that literal, whatever
    the file decoder wrote. *)
Theorem Load_environment_dominates fsys env fs paramsActions fs' log i l lit v :
  Load fsys env (Some (VPtr (VStruct fs))) paramsActions
  = (Some (VPtr (VStruct fs')), log, None) ->
  nth_error (leaves true fs') i = Some l ->
  canSet l = true ->
  LookupEnv env (getEnvVarName (leafField l)
                   (envPrefix (resolveParameters paramsActions))) = Some lit ->
  literalValue (leafValue l) lit = Some v ->
  leafValue l = v.
Proof.
  unfold Load. cbn [validateConfig].
  fold (resolveParameters paramsActions).
  set (p := resolveParameters paramsActions).
  destruct (loadFromYaml fsys fs p) as [[fs1 log1] [e1|]]; [discriminate|].
  unfold loadFromEnv.
  destruct (loadStructFromEnv env fs1 (envPrefix p)) as [[fs2 log2] [e2|]] eqn:E;
    [discriminate|].
  intros [= <- <-] Hi Hc Hs Hv.
  apply loadStructFromEnv_rerun in E.
  pose proof (loadLeaves_of_record env (envPrefix p) fs2) as EL.
  unfold recordAfter, lookupsMade, errorReturned in EL. rewrite E in EL.
  cbn [fst snd] in EL.
  destruct (loadLeaves_applied _ _ _ _ _ _ _ _ EL Hi Hc Hs) as (w & Hw & Hn).
  rewrite (literalValue_set _ _ _ Hv) in Hw. injection Hw as <-.
  rewrite Hi in Hn. injection Hn as ->. reflexivity.
Qed.

End LoadProperties.

Section Options.
Context `{Externals}.

Lemma resolveParameters_snoc acts a :
  resolveParameters (acts ++ [a]) = a (resolveParameters acts).
Proof. unfold resolveParameters. rewrite fold_left_app. reflexivity. Qed.

Lemma fold_keepsPrefix acts :
  Forall keepsPrefix acts ->
  forall o, envPrefix (fold_left (fun p a => a p) acts o) = envPrefix o.
Proof.
  induction 1 as [|a acts Ha _ IH]; intros o; cbn [fold_left]; [reflexivity|].
  rewrite IH. apply Ha.
Qed.

(** X16: among the options given to [Load] the last [WithEnvPrefix] decides
    the prefix, and [WithPaths] and [WithName] do not touch it, wherever
    they stand; with no [WithEnvPrefix] at all the prefix is [APP]. *)
Theorem last_prefix_option_decides before prefix after :
  Forall keepsPrefix after ->
  (forall ps, keepsPrefix (WithPaths ps))
  /\ (forall n, keepsPrefix (WithName n))
  /\ envPrefix (resolveParameters (before ++ WithEnvPrefix prefix :: after))
     = TrimSuffix (ToUpper prefix) "_"
  /\ envPrefix (resolveParameters after) = "APP".
Proof.
  intros Ha. repeat split.
  - unfold resolveParameters. rewrite fold_left_app. cbn [fold_left].
    rewrite (fold_keepsPrefix _ Ha). reflexivity.
  - unfold resolveParameters. rewrite (fold_keepsPrefix _ Ha). reflexivity.
Qed.

(** X17: [validateConfig] accepts exactly the non-nil pointers to a struct:
    it returns an error for the four kinds of bad argument and for nothing
    else, and the error is one of three messages. *)
Theorem validateConfig_exact cfg :
  (validateConfig cfg = None <-> exists fs, cfg = Some (VPtr (VStruct fs)))
  /\ (validateConfig cfg <> None <-> BadArgument cfg)
  /\ (forall err,
         validateConfig cfg = Some err ->
         err = Errorf "config must not be nil"
         \/ err = Errorf "config must be a pointer to struct"
         \/ err = Errorf "config pointer must not be nil").
Proof.
  split; [|split].
  - split.
    + destruct cfg as [v|]; [|discriminate].
      destruct v; try discriminate. destruct v; try discriminate. eauto.
    + intros [fs ->]. reflexivity.
  - split.
    + intros Hv. destruct cfg as [v|]; [|constructor].
      destruct v as [b|k n|k n|k x|s|fs| |elem|k];
        try (apply BadNonPointer; cbn [kindOf]; try destruct k; discriminate);
        [apply BadNilPointer|].
      destruct elem as [b|k n|k n|k x|s|fs| |elem|k];
        try (apply BadPointerToNonStruct; cbn [kindOf]; try destruct k;
             discriminate).
      contradiction Hv. reflexivity.
    + intros [|v Hk| |elem Hk]; cbn [validateConfig]; try discriminate.
      * destruct v; try discriminate; cbn [kindOf] in Hk; congruence.
      * destruct elem; try discriminate; cbn [kindOf] in Hk; congruence.
  - intros err. destruct cfg as [v|]; cbn [validateConfig].
    + destruct v; try (intros [= <-]; auto).
      destruct v; intros [= <-]; auto.
    + intros [= <-]. auto.
Qed.

End Options.

Section Panics.
Context `{Collaborators} `{Quoting}.

(** X18: [MustLoad] returns normally exactly when [Load] returns no error,
    with the same record and the same reads and lookups; on a bad argument
    it panics, before any read or lookup, with the fixed prefix, [invalid
    config] and the validation message. *)
Theorem MustLoad_panics_on_error fsys env cfg paramsAction :
  (snd (MustLoad fsys env cfg paramsAction) = Returned
   <-> snd (Load fsys env cfg paramsAction) = None)
  /\ fst (MustLoad fsys env cfg paramsAction) = fst (Load fsys env cfg paramsAction)
  /\ (BadArgument cfg ->
      exists msg,
        validateConfig cfg = Some (Errorf msg)
        /\ MustLoad fsys env cfg paramsAction
           = (cfg, [],
              Panicked ("cfg: failed to load config: invalid config: " ++ msg))).
Proof.
  split; [|split].
  - unfold MustLoad.
    destruct (Load fsys env cfg paramsAction) as [[c l] [e|]]; cbn [snd];
      split; intros E; try reflexivity; discriminate E.
  - unfold MustLoad.
    destruct (Load fsys env cfg paramsAction) as [[c l] [e|]]; reflexivity.
  - intros Hbad. destruct (validateConfig_rejects _ Hbad) as [err Hv].
    assert (exists msg, err = Errorf msg) as [msg ->].
    { destruct cfg as [v|]; cbn [validateConfig] in Hv.
      - destruct v; try (injection Hv as <-; eauto).
        destruct v; try (injection Hv as <-; eauto). discriminate Hv.
      - injection Hv as <-. eauto. }
    exists msg. split; [exact Hv|].
    unfold MustLoad, Load. rewrite Hv. reflexivity.
Qed.

Lemma string_app_assoc (a b c : string) : (a ++ b) ++ c = a ++ (b ++ c).
Proof.
  induction a as [|x a IH]; cbn [append]; [reflexivity|].
  rewrite IH. reflexivity.
Qed.

(** X19: when the file phase succeeds and the environment pass stops at a
    field, [MustLoad] panics with a message that carries the phase, the
    name of the field, the name of the variable and the message of the
    parser. *)
Theorem MustLoad_message_names_field fsys env fs paramsAction
        fs1 log1 pre l post pre' logpre s cause :
  let p := resolveParameters paramsAction in
  loadFromYaml fsys fs p = (fs1, log1, None) ->
  leaves true fs1 = (pre ++ l :: post)%list ->
  loadLeaves env pre (envPrefix p) = (pre', logpre, None) ->
  canSet l = true ->
  LookupEnv env (getEnvVarName (leafField l) (envPrefix p)) = Some s ->
  setFieldFromEnv (leafValue l) s = inr cause ->
  snd (MustLoad fsys env (Some (VPtr (VStruct fs))) paramsAction)
  = Panicked ("cfg: failed to load config: load env: set field "
              ++ Name (leafField l) ++ " from env "
              ++ getEnvVarName (leafField l) (envPrefix p) ++ ": "
              ++ Error cause).
Proof.
  intros p Hy Hls Hpre Hc Hs Hf.
  pose proof (loadLeaves_of_record env (envPrefix p) fs1) as E.
  rewrite Hls, loadLeaves_app, Hpre in E.
  cbn [loadLeaves] in E. rewrite Hc, Hs, Hf in E. cbn [negb] in E.
  injection E as _ _ E3.
  unfold MustLoad, Load. cbn [validateConfig].
  fold (resolveParameters paramsAction). fold p. rewrite Hy.
  unfold loadFromEnv. unfold errorReturned in E3.
  destruct (loadStructFromEnv env fs1 (envPrefix p)) as [[fs2 log2] e2].
  cbn [snd] in E3. subst e2. cbn [snd Error setFieldError].
  f_equal. rewrite !string_app_assoc. reflexivity.
Qed.

End Panics.

Section ComputedNames.
Context `{Externals}.

Ltac all_bytes c :=
  destruct c as [[|] [|] [|] [|] [|] [|] [|] [|]]; vm_compute; reflexivity.

Lemma upperByte_isLowerByte c : isLowerByte (upperByte c) = false.
Proof. all_bytes c. Qed.

Lemma hasLower_upper s : hasLower (mapBytes upperByte s) = false.
Proof.
  induction s as [|c r IH]; cbn [mapBytes hasLower]; [reflexivity|].
  rewrite upperByte_isLowerByte, IH. reflexivity.
Qed.

Lemma hasLower_app a b : hasLower (a ++ b) = hasLower a || hasLower b.
Proof.
  induction a as [|c a IH]; cbn [append hasLower]; [reflexivity|].
  rewrite IH, orb_assoc. reflexivity.
Qed.

Lemma hasLower_ToUpper s : isASCII s = true -> hasLower (ToUpper s) = false.
Proof. intros Hs. rewrite (ToUpper_ascii _ Hs). apply hasLower_upper. Qed.

(** X20: the names the pass looks up contain no lower-case ASCII letter:
    under the default prefix or a prefix stored by [WithEnvPrefix], the
    name computed from an ASCII override key is in upper case, so a
    variable whose name has a lower-case letter is never consulted. *)
Theorem computed_name_is_upper_case sf (after : list Action) prefix :
  isASCII prefix = true ->
  isASCII (envTag sf) = true ->
  Forall keepsPrefix after ->
  hasLower (getEnvVarName sf (envPrefix (resolveParameters after))) = false
  /\ hasLower (getEnvVarName sf
                 (envPrefix (resolveParameters (WithEnvPrefix prefix :: after))))
     = false.
Proof.
  intros Hp Ht Ha.
  assert (Hgen : forall P, hasLower P = false ->
                           hasLower (getEnvVarName sf P) = false).
  { intros P HP. unfold getEnvVarName.
    destruct (String.eqb (envTag sf) ""); cbn [negb]; [reflexivity|].
    destruct (String.eqb P ""); cbn [negb]; [apply hasLower_ToUpper, Ht|].
    rewrite !hasLower_app, HP, (hasLower_ToUpper _ Ht). reflexivity. }
  split; apply Hgen.
  - unfold resolveParameters. rewrite (fold_keepsPrefix _ Ha). reflexivity.
  - unfold resolveParameters. cbn [fold_left].
    rewrite (fold_keepsPrefix _ Ha). cbn [WithEnvPrefix envPrefix].
    rewrite (ToUpper_ascii _ Hp), TrimSuffix_upper. apply hasLower_upper.
Qed.

(** X21: the case of the letters of an override key does not matter: two
    ASCII keys that differ only in case compute the same name under every
    prefix. *)
Theorem override_key_case_insensitive sf1 sf2 P :
  isASCII (envTag sf1) = true ->
  sameUpToCase (envTag sf1) (envTag sf2) = true ->
  getEnvVarName sf1 P = getEnvVarName sf2 P.
Proof.
  intros Ha Hs. destruct (sameUpToCase_upper _ _ Hs) as [Eu Ea].
  rewrite Ha in Ea. unfold getEnvVarName.
  rewrite (ToUpper_ascii _ Ha), (ToUpper_ascii _ Ea), Eu.
  destruct (envTag sf1) as [|a t1]; destruct (envTag sf2) as [|b t2];
    try discriminate Hs; reflexivity.
Qed.

End ComputedNames.

Section Literals.
Context `{Externals}.

Lemma decimalValue_nonneg s : allDigits s = true -> 0 <= decimalValue s.
Proof. intros Hd. apply (decimalFrom_ge s 0 Hd). lia. Qed.

Lemma allDigits_head c r :
  allDigits (String.String c r) = true ->
  Ascii.eqb c "+" = false /\ Ascii.eqb c "-" = false.
Proof.
  cbn [allDigits]. intros Hd. apply andb_true_iff in Hd. destruct Hd as [Hc _].
  split.
  - destruct (Ascii.eqb_spec c "+") as [->|]; [discriminate Hc|reflexivity].
  - destruct (Ascii.eqb_spec c "-") as [->|]; [discriminate Hc|reflexivity].
Qed.

Lemma ParseUint_digits s :
  s <> "" -> allDigits s = true ->
  ParseUint s = if decimalValue s <=? maxUint64 then inl (decimalValue s)
                else inr ErrRange.
Proof.
  intros Hs Hd. destruct s as [|c r]; [contradiction|]. cbn [ParseUint].
  apply parseUintLoop_decimal; [exact Hd|unfold maxUint64; lia].
Qed.

Lemma ParseInt_minus r :
  ParseInt (String.String "-" r)
  = match ParseUint r with
    | inl un => if un >? 2 ^ 63 then inr ErrRange else inl (- un)
    | inr e => inr e
    end.
Proof.
  unfold ParseInt.
  replace (Ascii.eqb "-" "+") with false by reflexivity.
  replace (Ascii.eqb "-" "-") with true by reflexivity.
  cbn [orb negb andb].
  destruct (ParseUint r) as [un|[|]]; reflexivity.
Qed.

Lemma ParseInt_plus r :
  ParseInt (String.String "+" r)
  = match ParseUint r with
    | inl un => if un >=? 2 ^ 63 then inr ErrRange else inl un
    | inr e => inr e
    end.
Proof.
  unfold ParseInt.
  replace (Ascii.eqb "+" "+") with true by reflexivity.
  replace (Ascii.eqb "+" "-") with false by reflexivity.
  cbn [orb negb andb].
  destruct (ParseUint r) as [un|[|]]; reflexivity.
Qed.

Lemma ParseInt_unsigned c r :
  Ascii.eqb c "+" = false -> Ascii.eqb c "-" = false ->
  ParseInt (String.String c r)
  = match ParseUint (String.String c r) with
    | inl un => if un >=? 2 ^ 63 then inr ErrRange else inl un
    | inr e => inr e
    end.
Proof.
  intros Hp Hm. unfold ParseInt. rewrite Hp, Hm. cbn [orb negb andb].
  destruct (ParseUint (String.String c r)) as [un|[|]]; reflexivity.
Qed.

(** [ParseInt] accepts exactly an optional sign followed by a non-empty
    string of digits that writes a number of the int64 range. *)
Lemma ParseInt_signed s n :
  ParseInt s = inl n
  <-> exists sign digits,
      s = sign ++ digits
      /\ (sign = "" \/ sign = "+" \/ sign = "-")
      /\ digits <> "" /\ allDigits digits = true
      /\ n = signedValue sign digits
      /\ - 2 ^ 63 <= n < 2 ^ 63.
Proof.
  split.
  - intros E. destruct s as [|c r]; [discriminate E|].
    destruct (Ascii.eqb_spec c "-") as [->|Hm].
    + rewrite ParseInt_minus in E.
      destruct (ParseUint r) as [un|e] eqn:Eu; [|discriminate E].
      apply ParseUint_decimal in Eu. destruct Eu as (Hr & Hd & Hv & Hmax).
      pose proof (decimalValue_nonneg _ Hd).
      destruct (Z.gtb_spec un (2 ^ 63)); [discriminate E|].
      injection E as <-. exists "-", r. unfold signedValue.
      replace (String.eqb "-" "-") with true by reflexivity.
      repeat split; auto; lia.
    + destruct (Ascii.eqb_spec c "+") as [->|Hp].
      * rewrite ParseInt_plus in E.
        destruct (ParseUint r) as [un|e] eqn:Eu; [|discriminate E].
        apply ParseUint_decimal in Eu. destruct Eu as (Hr & Hd & Hv & Hmax).
        pose proof (decimalValue_nonneg _ Hd).
        destruct (Z.geb_spec un (2 ^ 63)); [discriminate E|].
        injection E as <-. exists "+", r. unfold signedValue.
        replace (String.eqb "+" "-") with false by reflexivity.
        repeat split; auto; lia.
      * apply Ascii.eqb_neq in Hm. apply Ascii.eqb_neq in Hp.
        rewrite (ParseInt_unsigned _ _ Hp Hm) in E.
        destruct (ParseUint (String.String c r)) as [un|e] eqn:Eu;
          [|discriminate E].
        apply ParseUint_decimal in Eu. destruct Eu as (Hr & Hd & Hv & Hmax).
        pose proof (decimalValue_nonneg _ Hd).
        destruct (Z.geb_spec un (2 ^ 63)); [discriminate E|].
        injection E as <-. exists "", (String.String c r). unfold signedValue.
        replace (String.eqb "" "-") with false by reflexivity.
        repeat split; auto; lia.
  - intros (sign & digits & -> & Hsign & Hne & Hd & -> & Hlo & Hhi).
    pose proof (decimalValue_nonneg _ Hd) as Hnn.
    assert (Hu : decimalValue digits <= maxUint64 ->
                 ParseUint digits = inl (decimalValue digits)).
    { intros Hm. apply ParseUint_decimal. auto. }
    unfold maxUint64 in Hu.
    assert (H64 : 2 ^ 64 = 2 * 2 ^ 63) by reflexivity.
    destruct Hsign as [-> | [-> | ->]]; unfold signedValue in *.
    + replace (String.eqb "" "-") with false in * by reflexivity.
      change ("" ++ digits) with digits.
      destruct digits as [|c r]; [contradiction|].
      destruct (allDigits_head _ _ Hd) as [Hp Hm].
      rewrite (ParseInt_unsigned _ _ Hp Hm), Hu by lia.
      destruct (Z.geb_spec (decimalValue (String.String c r)) (2 ^ 63));
        [lia|reflexivity].
    + replace (String.eqb "+" "-") with false in * by reflexivity.
      change ("+" ++ digits) with (String.String "+" digits).
      rewrite ParseInt_plus, Hu by lia.
      destruct (Z.geb_spec (decimalValue digits) (2 ^ 63)); [lia|reflexivity].
    + replace (String.eqb "-" "-") with true in * by reflexivity.
      change ("-" ++ digits) with (String.String "-" digits).
      rewrite ParseInt_minus, Hu by lia.
      destruct (Z.gtb_spec (decimalValue digits) (2 ^ 63)); [lia|reflexivity].
Qed.

(** X22: a field of a signed integer kind accepts exactly the base-10
    literals with an optional sign whose number fits 64 bits, and stores the
    number truncated to the width of the field; every other string is
    rejected with the error of [ParseInt]. *)
Theorem signed_field_literals k old s :
  (forall v,
      setFieldFromEnv (VInt k old) s = inl v
      <-> exists sign digits,
          s = sign ++ digits
          /\ (sign = "" \/ sign = "+" \/ sign = "-")
          /\ digits <> "" /\ allDigits digits = true
          /\ - 2 ^ 63 <= signedValue sign digits < 2 ^ 63
          /\ v = VInt k (wrapSigned (intBits k) (signedValue sign digits)))
  /\ (forall e,
         setFieldFromEnv (VInt k old) s = inr e ->
         e = NumError "ParseInt" s ErrSyntax \/ e = NumError "ParseInt" s ErrRange).
Proof.
  split.
  - intros v. cbn [setFieldFromEnv]. split.
    + destruct (ParseInt s) as [n|e] eqn:E; [|discriminate].
      intros [= <-]. apply ParseInt_signed in E.
      destruct E as (sign & digits & Hs & Hsg & Hne & Hd & -> & Hr).
      exists sign, digits. repeat split; auto; apply Hr.
    + intros (sign & digits & Hs & Hsg & Hne & Hd & Hr & ->).
      assert (E : ParseInt s = inl (signedValue sign digits)).
      { apply ParseInt_signed. exists sign, digits. repeat split; auto; apply Hr. }
      rewrite E. reflexivity.
  - intros e. cbn [setFieldFromEnv].
    destruct (ParseInt s) as [n|[|]]; intros [= <-]; auto.
Qed.

(** X23: a field of an unsigned integer kind accepts exactly the non-empty
    strings of decimal digits that write a number below 2^64 - no sign, not
    even a plus - and stores the number truncated to the width of the
    field. *)
Theorem unsigned_field_literals k old s v :
  setFieldFromEnv (VUint k old) s = inl v
  <-> s <> "" /\ allDigits s = true /\ decimalValue s <= maxUint64
      /\ v = VUint k (wrapUnsigned (uintBits k) (decimalValue s)).
Proof.
  cbn [setFieldFromEnv]. split.
  - destruct (ParseUint s) as [n|e] eqn:E; [|discriminate].
    intros [= <-]. apply ParseUint_decimal in E.
    destruct E as (Hs & Hd & <- & Hm). auto.
  - intros (Hs & Hd & Hm & ->).
    assert (E : ParseUint s = inl (decimalValue s))
      by (apply ParseUint_decimal; auto).
    rewrite E. reflexivity.
Qed.

End Literals.

(** * The properties on concrete records *)

#[local] Existing Instance asciiNoFloat.
#[local] Existing Instance plainCollaborators.

Lemma untagged_field_unchanged_witness :
  nth_error (leaves true (recordAfter timeoutEnv timeoutRecord "APP")) 0
  = Some (mkLeaf true (field "Timeout" "") (VInt KInt 0)).
Proof.
  apply (untagged_field_unchanged timeoutEnv "APP" timeoutRecord 0
           (mkLeaf true (field "Timeout" "") (VInt KInt 0)));
    reflexivity.
Defined.

(** The statement of C2 fails on [abortRecord]: the variables [C] and [A]
    are present with valid literals, yet field [C] (the pass has returned
    on [B]) and field [a] (unexported) do not hold the parsed values.  It
    fails on [lowerKeyRecord] under the prefix [app] too: [APP_C], the
    prefix and the key upper-cased, is present with a valid literal, the
    pass succeeds, and the field is not set (the name looked up is
    [app_C]). *)
Lemma override_applied_counterexample :
  (nth_error (leaves true abortRecord) 2
   = Some (mkLeaf true (field "C" "C") (VInt KInt 0))
   /\ LookupEnv abortEnv (getEnvVarName (field "C" "C") "") = Some "5"
   /\ literalValue (VInt KInt 0) "5" = Some (VInt KInt 5)
   /\ nth_error (leaves true (recordAfter abortEnv abortRecord "")) 2
      <> Some (mkLeaf true (field "C" "C") (VInt KInt 5)))
  /\ (nth_error (leaves true abortRecord) 0
      = Some (mkLeaf false (unexportedField "a" "A") (VInt KInt 0))
      /\ LookupEnv abortEnv (getEnvVarName (unexportedField "a" "A") "")
         = Some "1"
      /\ literalValue (VInt KInt 0) "1" = Some (VInt KInt 1)
      /\ nth_error (leaves true (recordAfter abortEnv abortRecord "")) 0
         <> Some (mkLeaf false (unexportedField "a" "A") (VInt KInt 1)))
  /\ (nth_error (leaves true lowerKeyRecord) 0
      = Some (mkLeaf true (field "C" "c") (VInt KInt 0))
      /\ LookupEnv lowerKeyEnv (ToUpper ("app" ++ "_" ++ "c")) = Some "5"
      /\ literalValue (VInt KInt 0) "5" = Some (VInt KInt 5)
      /\ errorReturned lowerKeyEnv lowerKeyRecord "app" = None
      /\ nth_error (leaves true (recordAfter lowerKeyEnv lowerKeyRecord "app")) 0
         <> Some (mkLeaf true (field "C" "c") (VInt KInt 5))).
Proof.
  repeat split; try reflexivity; vm_compute; discriminate.
Qed.

Lemma override_applied_when_reached_witness :
  nth_error (leaves true (recordAfter hostEnv hostRecord "APP")) 1
  = Some (mkLeaf true (field "Name" "name") (VString "svc")).
Proof.
  refine (override_applied_when_reached hostEnv "APP" hostRecord
            [mkLeaf true (field "Host" "host") (VString "localhost")]
            (mkLeaf true (field "Name" "name") (VString "from-file"))
            [mkLeaf true (field "Port" "port") (VInt KInt 3000)]
            "svc" (VString "svc") eq_refl _ eq_refl _ eq_refl eq_refl).
  - intros m t [<-|[]] _ _. eexists. reflexivity.
  - vm_compute. discriminate.
Defined.



(** C4: an [int8] field whose variable holds 300, a literal that overflows
    the declared width: the pass returns no error and stores 44. *)
Theorem int8_overflow_is_stored_wrapped :
  loadStructFromEnv int8Env int8Record "APP"
  = (FCons (field "N" "N") (VInt KInt8 44) FNil, [EvLookupEnv "APP_N"], None).
Proof. vm_compute. reflexivity. Qed.

Lemma failing_field_stops_traversal_witness :
  errorReturned serviceEnv serviceRecord "APP"
  = Some (Wrapf "set field Port from env APP_PORT"
            (NumError "ParseInt" "notanumber" ErrSyntax))
  /\ leaves true (recordAfter serviceEnv serviceRecord "APP")
     = [mkLeaf true (field "Name" "NAME") (VString "svc");
        mkLeaf true (field "Port" "PORT") (VInt KInt 3000);
        mkLeaf true (field "Debug" "DEBUG") (VBool false)]
  /\ lookupsMade serviceEnv serviceRecord "APP"
     = [EvLookupEnv "APP_NAME"; EvLookupEnv "APP_PORT"].
Proof.
  destruct (failing_field_stops_traversal serviceEnv "APP" serviceRecord
              [mkLeaf true (field "Name" "NAME") (VString "")]
              (mkLeaf true (field "Port" "PORT") (VInt KInt 3000))
              [mkLeaf true (field "Debug" "DEBUG") (VBool false)]
              [mkLeaf true (field "Name" "NAME") (VString "svc")]
              [EvLookupEnv "APP_NAME"] "notanumber"
              (NumError "ParseInt" "notanumber" ErrSyntax)
              eq_refl eq_refl eq_refl eq_refl eq_refl)
    as (He & Hl & Hk & _).
  repeat split; assumption.
Defined.

Lemma Load_rejects_bad_argument_witness :
  Load noFile serverEnv (Some (VStruct serverRecord)) [WithEnvPrefix "app"]
  = (Some (VStruct serverRecord), [],
     Some (Wrapf "invalid config" (Errorf "config must be a pointer to struct"))).
Proof.
  destruct (Load_rejects_bad_argument noFile serverEnv
              (Some (VStruct serverRecord)) [WithEnvPrefix "app"])
    as (err & Hv & HL).
  - apply BadNonPointer. vm_compute. discriminate.
  - vm_compute in Hv. injection Hv as <-. exact HL.
Defined.





Lemma override_idempotent_witness :
  loadStructFromEnv serverEnv (recordAfter serverEnv serverRecord "APP") "APP"
  = (recordAfter serverEnv serverRecord "APP",
     [EvLookupEnv "APP_SERVER_PORT"], None).
Proof.
  apply (override_idempotent serverEnv "APP" serverRecord). reflexivity.
Defined.

Lemma bool_tokens_witness :
  setFieldFromEnv (VBool false) "True" = inl (VBool true)
  /\ setFieldFromEnv (VBool true) "F" = inl (VBool false)
  /\ setFieldFromEnv (VBool true) "yes"
     = inr (NumError "ParseBool" "yes" ErrSyntax).
Proof.
  split; [|split].
  - apply (bool_tokens false "True"). vm_compute. tauto.
  - apply (bool_tokens true "F"). vm_compute. tauto.
  - apply (bool_tokens true "yes"); vm_compute; intuition discriminate.
Defined.

Lemma unexported_field_skipped_witness :
  nth_error (leaves true (recordAfter secretEnv secretRecord "APP")) 0
  = Some (mkLeaf false (unexportedField "secret" "SECRET") (VString "s3"))
  /\ nth_error (leaves true (recordAfter secretEnv secretRecord "APP")) 1
     = Some (mkLeaf false (field "Port" "PORT") (VInt KInt 1)).
Proof.
  split;
    apply (proj1 (unexported_field_skipped secretEnv "APP" secretRecord));
    reflexivity.
Defined.

(** ** The tests of the package, run on the model *)

Example TestNoEnvOverrideWithoutTag :
  Load noFile simpleEnv (Some (VPtr (VStruct simpleConfig)))
       [WithPaths ["./test"]; WithName "simple_config"; WithEnvPrefix "TEST"]
  = (Some (VPtr (VStruct
       (FCons (field "Name" "") (VString "from-file")
          (FCons (field "Version" "VERSION") (VString "2.0.0") FNil)))),
     [EvReadFile "test/simple_config.yaml";
      EvLookupEnv ""; EvLookupEnv "TEST_VERSION"],
     None).
Proof. vm_compute. reflexivity. Qed.

Example TestEnvPrefix :
  Load noFile prefixEnv (Some (VPtr (VStruct serverRecord)))
       [WithPaths ["./test"]; WithName "config"; WithEnvPrefix "MYAPP"]
  = (Some (VPtr (VStruct
       (FCons (field "Server" "")
          (VStruct (FCons (field "Port" "SERVER_PORT") (VInt KInt 7070) FNil))
          FNil))),
     [EvReadFile "test/config.yaml"; EvLookupEnv "MYAPP_SERVER_PORT"],
     None).
Proof. vm_compute. reflexivity. Qed.

Example TestNilConfig :
  Load noFile [] None []
  = (None, [], Some (Wrapf "invalid config" (Errorf "config must not be nil"))).
Proof. reflexivity. Qed.

(** Literals at the edge of 64 bits, and a value that is not a number. *)
Example ParseInt_edges :
  ParseInt "9223372036854775807" = inl 9223372036854775807
  /\ ParseInt "9223372036854775808" = inr ErrRange
  /\ ParseInt "-9223372036854775808" = inl (-9223372036854775808)
  /\ ParseInt "-9223372036854775809" = inr ErrRange
  /\ ParseInt "+42" = inl 42
  /\ ParseInt "notanumber" = inr ErrSyntax
  /\ ParseInt "" = inr ErrSyntax
  /\ ParseUint "18446744073709551615" = inl 18446744073709551615
  /\ ParseUint "18446744073709551616" = inr ErrRange
  /\ ParseUint "-1" = inr ErrSyntax.
Proof. repeat split; vm_compute; reflexivity. Qed.

(** ** The further properties on concrete records *)

#[local] Existing Instance noQuote.

Lemma pass_depends_on_computed_names_witness :
  loadStructFromEnv prefixEnv serverRecord "MYAPP"
  = loadStructFromEnv [("MYAPP_SERVER_PORT", "7070")] serverRecord "MYAPP".
Proof.
  apply (pass_depends_on_computed_names prefixEnv
           [("MYAPP_SERVER_PORT", "7070")] "MYAPP" serverRecord).
  intros l [<-|[]] _. reflexivity.
Defined.

Lemma pass_without_variables_witness :
  loadStructFromEnv [("SERVER_PORT", "8080")] serverRecord "APP"
  = (serverRecord, [EvLookupEnv "APP_SERVER_PORT"], None).
Proof.
  apply (pass_without_variables [("SERVER_PORT", "8080")] "APP" serverRecord).
  intros l [<-|[]] _. reflexivity.
Defined.

Lemma successful_pass_lookups_witness :
  lookupsMade secretEnv secretRecord "APP" = [EvLookupEnv "APP_NAME"].
Proof.
  apply (successful_pass_lookups secretEnv "APP" secretRecord). reflexivity.
Defined.

Lemma unsupported_field_never_set_witness :
  nth_error (leaves true (recordAfter [("APP_TAGS", "a,b")] tagsRecord "APP")) 1
  = Some (mkLeaf true (field "Tags" "TAGS") (VOpaque KSlice))
  /\ errorReturned [("APP_TAGS", "a,b")] tagsRecord "APP" <> None.
Proof.
  destruct (unsupported_field_never_set [("APP_TAGS", "a,b")] "APP" tagsRecord 1
              (mkLeaf true (field "Tags" "TAGS") (VOpaque KSlice))
              eq_refl eq_refl) as [Hn He].
  split; [exact Hn|]. apply He; [reflexivity|]. vm_compute. discriminate.
Defined.

Lemma colliding_keys_share_value_witness :
  exists v,
    nth_error (leaves true (recordAfter portEnv twoPorts "APP")) 0
    = Some (mkLeaf true (field "Port" "PORT") v)
    /\ nth_error (leaves true (recordAfter portEnv twoPorts "APP")) 1
       = Some (mkLeaf true (field "Port" "port") v).
Proof.
  apply (colliding_keys_share_value portEnv "APP" twoPorts 0 1
           (mkLeaf true (field "Port" "PORT") (VInt KInt 80))
           (mkLeaf true (field "Port" "port") (VInt KInt 81)) "9000");
    reflexivity.
Defined.

Lemma pass_result_independent_of_values_witness :
  lookupsMade serviceEnv serviceRecord "APP"
  = lookupsMade serviceEnv
      (FCons (field "Name" "NAME") (VString "other")
         (FCons (field "Port" "PORT") (VInt KInt 1)
            (FCons (field "Debug" "DEBUG") (VBool true) FNil)))
      "APP"
  /\ errorReturned serviceEnv serviceRecord "APP"
     = errorReturned serviceEnv
         (FCons (field "Name" "NAME") (VString "other")
            (FCons (field "Port" "PORT") (VInt KInt 1)
               (FCons (field "Debug" "DEBUG") (VBool true) FNil)))
         "APP".
Proof.
  apply (pass_result_independent_of_values serviceEnv "APP" serviceRecord).
  cbn. repeat split; reflexivity.
Defined.

Lemma loadFromYaml_no_file_witness :
  loadFromYaml noFile serverRecord defaultParameters
  = (serverRecord,
     [EvReadFile "config.yaml"; EvReadFile "config/config.yaml"], None).
Proof.
  refine (loadFromYaml_no_file noFile serverRecord defaultParameters _).
  intros path _. eexists. reflexivity.
Defined.

Lemma loadFromYaml_first_found_witness :
  loadFromYaml (oneFile "config/config.yaml" "server: {port: 3000}")
               serverRecord defaultParameters
  = (serverRecord,
     [EvReadFile "config.yaml"; EvReadFile "config/config.yaml"], None).
Proof.
  refine (loadFromYaml_first_found
            (oneFile "config/config.yaml" "server: {port: 3000}")
            serverRecord defaultParameters ["."] "./config" []
            "server: {port: 3000}" eq_refl _ eq_refl).
  intros q [<-|[]]. eexists. reflexivity.
Defined.

Lemma loadFromYaml_unreadable_witness :
  loadFromYaml (lockedFile "config.yaml") serverRecord defaultParameters
  = (serverRecord, [EvReadFile "config.yaml"],
     Some (Wrapf "unread file config.yaml" (Errorf "permission denied"))).
Proof.
  refine (loadFromYaml_unreadable (lockedFile "config.yaml") serverRecord
            defaultParameters [] "." ["./config"] (Errorf "permission denied")
            eq_refl _ eq_refl).
  intros q [].
Defined.

Lemma Load_error_taxonomy_witness :
  (exists cause,
      Wrapf "unload config file"
            (Wrapf "unread file config.yaml" (Errorf "permission denied"))
      = Wrapf "invalid config" cause
      /\ [EvReadFile "config.yaml"] = []
      /\ Some (VPtr (VStruct serverRecord)) = Some (VPtr (VStruct serverRecord)))
  \/ (exists cause,
         Wrapf "unload config file"
               (Wrapf "unread file config.yaml" (Errorf "permission denied"))
         = Wrapf "unload config file" cause
         /\ forall k, ~ In (EvLookupEnv k) [EvReadFile "config.yaml"])
  \/ (exists cause,
         Wrapf "unload config file"
               (Wrapf "unread file config.yaml" (Errorf "permission denied"))
         = Wrapf "load env" cause).
Proof.
  apply (Load_error_taxonomy (lockedFile "config.yaml") serverEnv
           (Some (VPtr (VStruct serverRecord))) []
           (Some (VPtr (VStruct serverRecord)))
           [EvReadFile "config.yaml"]).
  reflexivity.
Defined.

Lemma Load_without_file_witness :
  Load noFile serverEnv (Some (VPtr (VStruct serverRecord))) []
  = (Some (VPtr (VStruct (recordAfter serverEnv serverRecord "APP"))),
     [EvReadFile "config.yaml"; EvReadFile "config/config.yaml";
      EvLookupEnv "APP_SERVER_PORT"],
     None).
Proof.
  refine (Load_without_file noFile serverEnv serverRecord [] _).
  intros path _. eexists. reflexivity.
Defined.

Lemma Load_environment_dominates_witness :
  leafValue (mkLeaf true (field "Port" "SERVER_PORT") (VInt KInt 8080))
  = VInt KInt 8080.
Proof.
  apply (Load_environment_dominates
           (oneFile "config.yaml" "server: {port: 3000}") serverEnv
           serverRecord []
           (FCons (field "Server" "")
              (VStruct (FCons (field "Port" "SERVER_PORT") (VInt KInt 8080) FNil))
              FNil)
           [EvReadFile "config.yaml"; EvLookupEnv "APP_SERVER_PORT"]
           0 (mkLeaf true (field "Port" "SERVER_PORT") (VInt KInt 8080))
           "8080" (VInt KInt 8080));
    reflexivity.
Defined.

Lemma last_prefix_option_decides_witness :
  envPrefix (resolveParameters
               [WithEnvPrefix "first"; WithEnvPrefix "myapp_";
                WithName "app"; WithPaths ["/etc/app"]])
  = "MYAPP"
  /\ envPrefix (resolveParameters [WithName "app"; WithPaths ["/etc/app"]])
     = "APP".
Proof.
  destruct (last_prefix_option_decides [WithEnvPrefix "first"] "myapp_"
              [WithName "app"; WithPaths ["/etc/app"]])
    as (_ & _ & Hp & Hd).
  - repeat constructor.
  - split; [exact Hp|exact Hd].
Defined.

Lemma validateConfig_exact_witness :
  BadArgument (Some (VPtr (VInt KInt 7)))
  /\ validateConfig (Some (VPtr (VInt KInt 7)))
     = Some (Errorf "config must be a pointer to struct").
Proof.
  destruct (validateConfig_exact (Some (VPtr (VInt KInt 7))))
    as (_ & Hbad & _).
  split; [|reflexivity]. apply Hbad. vm_compute. discriminate.
Defined.

Lemma MustLoad_panics_on_error_witness :
  exists msg,
    validateConfig (Some VNilPtr) = Some (Errorf msg)
    /\ MustLoad noFile serverEnv (Some VNilPtr) []
       = (Some VNilPtr, [],
          Panicked ("cfg: failed to load config: invalid config: " ++ msg)).
Proof.
  apply (MustLoad_panics_on_error noFile serverEnv (Some VNilPtr) []).
  apply BadNilPointer.
Defined.

Lemma MustLoad_message_names_field_witness :
  snd (MustLoad noFile [("APP_TAGS", "a,b")] (Some (VPtr (VStruct tagsRecord))) [])
  = Panicked "cfg: failed to load config: load env: set field Tags from env APP_TAGS: unsupported type: slice".
Proof.
  apply (MustLoad_message_names_field noFile [("APP_TAGS", "a,b")] tagsRecord []
           tagsRecord
           [EvReadFile "config.yaml"; EvReadFile "config/config.yaml"]
           [mkLeaf true (field "Name" "NAME") (VString "n")]
           (mkLeaf true (field "Tags" "TAGS") (VOpaque KSlice))
           [mkLeaf true (field "Zone" "ZONE") (VString "z")]
           [mkLeaf true (field "Name" "NAME") (VString "n")]
           [EvLookupEnv "APP_NAME"] "a,b"
           (Errorf "unsupported type: slice"));
    reflexivity.
Defined.

Lemma computed_name_is_upper_case_witness :
  hasLower (getEnvVarName (field "Port" "server_port") "APP") = false
  /\ hasLower (getEnvVarName (field "Port" "server_port") "MYAPP") = false.
Proof.
  apply (computed_name_is_upper_case (field "Port" "server_port") [] "myapp_").
  - reflexivity.
  - reflexivity.
  - constructor.
Defined.

Lemma override_key_case_insensitive_witness :
  getEnvVarName (field "Port" "server_port") "APP"
  = getEnvVarName (field "Port" "SERVER_Port") "APP".
Proof.
  apply (override_key_case_insensitive (field "Port" "server_port")
           (field "Port" "SERVER_Port") "APP");
    reflexivity.
Defined.

Lemma signed_field_literals_witness :
  setFieldFromEnv (VInt KInt8 0) "-128" = inl (VInt KInt8 (-128)).
Proof.
  apply (proj1 (signed_field_literals KInt8 0 "-128")).
  exists "-", "128".
  repeat split; try reflexivity; try discriminate;
    try (right; right; reflexivity); vm_compute; discriminate.
Defined.

Lemma unsigned_field_literals_witness :
  setFieldFromEnv (VUint KUint8 0) "255" = inl (VUint KUint8 255).
Proof.
  apply (unsigned_field_literals KUint8 0 "255").
  repeat split; try reflexivity; try discriminate; vm_compute; discriminate.
Defined.

(** [filepath.Clean] and [filepath.Join] on the cases of the library's
    tests. *)
Example Clean_cases :
  map filepath.Clean
      ["abc"; "abc/def"; "."; ".."; "../../abc"; "/abc"; "/"; ""; "abc/";
       "./"; "../../"; "abc//def//ghi"; "//abc"; "abc/./def"; "abc/.";
       "abc/def/ghi/../jkl"; "abc/def/.."; "abc/def/../.."; "/abc/def/../..";
       "abc/def/../../.."; "/abc/def/../../..";
       "abc/def/../../../ghi/jkl/../../../mno"; "/../abc"; "abc/./../def";
       "abc/../../././../def"]
  = ["abc"; "abc/def"; "."; ".."; "../../abc"; "/abc"; "/"; "."; "abc";
     "."; "../.."; "abc/def/ghi"; "/abc"; "abc/def"; "abc";
     "abc/def/jkl"; "abc"; "."; "/";
     ".."; "/";
     "../../mno"; "/abc"; "def";
     "../../def"]
  /\ map filepath.Join
         [["a"; "b"]; ["a"; ""]; [""; "b"]; ["/"; "a"]; ["a"; "/b"];
          ["a/"; "b"]; [""; ""]; ["."; "config.yaml"];
          ["./config"; "config.yaml"]]
     = ["a/b"; "a"; "b"; "/a"; "a/b"; "a/b"; ""; "config.yaml";
        "config/config.yaml"].
Proof. split; vm_compute; reflexivity. Qed.
